(** * Verification of [lseapprox.py]

    A shallow embedding of the piecewise-linear approximation engine of the
    log-sum-exp function ([addshp], [invapx], [lowerapprox], [upperapprox])
    over IEEE binary64 numbers, the numbers Python's [float] and NumPy's
    [float64] compute with.

    The C library functions [math.exp] and [math.log] are not part of the
    repository: the engine is defined in a section over an arbitrary pair
    of such functions, and run on a reference implementation of them
    ([ref_exp], [ref_log]) that follows Python's error conventions. *)

From Stdlib Require Import Floats ZArith List Bool Lia Uint63.
Import ListNotations.

Set Warnings "-inexact-float".
Local Open Scope float_scope.

(** ** Outcomes of a Python call *)

(** The exceptions the engine can run into.  [InvalidArgument] is the
    condition the specification names for a rejected argument; the source
    has no statement that raises it. *)
Inductive pyexn : Set :=
| OverflowError
| ValueError
| ZeroDivisionError
| UnboundLocalError
| InvalidArgument.

(** A call returns a value, raises, or is still running when the iteration
    budget of a [while] loop is used up. *)
Inductive res (A : Type) : Type :=
| Ret (a : A)
| Exn (e : pyexn)
| Timeout.
Arguments Ret {A} a.
Arguments Exn {A} e.
Arguments Timeout {A}.

Definition bind {A B : Type} (m : res A) (k : A -> res B) : res B :=
  match m with
  | Ret a => k a
  | Exn e => Exn e
  | Timeout => Timeout
  end.

Declare Scope res_scope.
Delimit Scope res_scope with res.
Notation "x <- m ;; k" := (bind m (fun x => k))
  (at level 61, m at next level, right associativity) : res_scope.
Notation "' p <- m ;; k" := (bind m (fun x => let p := x in k))
  (at level 61, p pattern, m at next level, right associativity) : res_scope.
Local Open Scope res_scope.

Definition returns {A : Type} (m : res A) : bool :=
  match m with Ret _ => true | _ => false end.

(** [while cond: body] with an iteration budget. *)
Fixpoint while {S : Type} (fuel : nat) (cond : S -> bool)
         (body : S -> res S) (s : S) : res S :=
  if cond s then
    match fuel with
    | O => Timeout
    | S n => s' <- body s ;; while n cond body s'
    end
  else Ret s.

(** [while True: body], where the body either goes round again or breaks
    out with the loop's result. *)
Fixpoint loop {S R : Type} (fuel : nat) (body : S -> res (S + R)) (s : S)
  : res R :=
  match fuel with
  | O => Timeout
  | S n =>
      o <- body s ;;
      match o with
      | inl s' => loop n body s'
      | inr r => Ret r
      end
  end.

(** ** Python and NumPy arithmetic on binary64 *)

(** [a / b] on Python floats raises on a zero divisor. *)
Definition py_div (a b : float) : res float :=
  if b =? 0 then Exn ZeroDivisionError else Ret (a / b).

(** C's [rint]: round to an integer, ties to even. *)
Definition two52 : float := 0x1p+52.

Definition rint (x : float) : float :=
  if abs x <? two52 then
    let r := (abs x + two52) - two52 in
    if (x <? 0) || (1 / x <? 0) then - r else r
  else x.

(** [np.round(x, 8)]: scale by [10**8], [rint], scale back. *)
Definition np_round8 (x : float) : float := rint (x * 1e8) / 1e8.

Definition row : Set := float * float.

Definition dot (u v : row) : float := fst u * fst v + snd u * snd v.

(** ** A reference C library *)

Module RefLibm.

(** The integer a float [kf] holds, [|kf| < 2^52], as an offset from the
    exponent bias of [ldshiftexp]. *)
Definition biased (kf : float) : int :=
  let m := normfr_mantissa (fst (frshiftexp (abs kf + two52))) in
  let k := PrimInt63.sub m 4503599627370496%uint63 in
  if kf <? 0 then PrimInt63.sub 2101%uint63 k
  else PrimInt63.add 2101%uint63 k.

Definition ln2_hi : float := 0x1.62e42feep-1.
Definition ln2_lo : float := 0x1.a39ef35793c76p-33.
Definition inv_ln2 : float := 0x1.71547652b82fep+0.
Definition exp_max : float := 0x1.62e42fefa39efp+9.
Definition exp_min : float := -0x1.74910d52d3051p+9.

Definition exp_kernel (x : float) : float :=
  let kf := rint (inv_ln2 * x) in
  let hi := x - kf * ln2_hi in
  let lo := kf * ln2_lo in
  let r := hi - lo in
  let t := r * r in
  let c := r - t * (0x1.555555555553ep-3 + t * (-0x1.6c16c16bebd93p-9
             + t * (0x1.1566aaf25de2cp-14 + t * (-0x1.bbd41c5d26bf1p-20
             + t * 0x1.6376972bea4d0p-25)))) in
  let y := 1 - ((lo - (r * c) / (2 - c)) - hi) in
  ldshiftexp y (biased kf).

(** [math.exp]: a result too large for binary64 is a range error. *)
Definition ref_exp (x : float) : res float :=
  if x =? x then
    if exp_max <? x then
      if x =? infinity then Ret infinity else Exn OverflowError
    else if x <? exp_min then Ret 0
    else Ret (exp_kernel x)
  else Ret x.

Definition sqrt_half : float := 0x1.6a09e667f3bcdp-1.

Definition log_kernel (x : float) : float :=
  let (m0, e0) := frshiftexp x in
  let k0 := of_uint63 e0 - 2101 in
  let '(m, k) := if m0 <? sqrt_half then (m0 * 2, k0 - 1) else (m0, k0) in
  let f := m - 1 in
  let s := f / (2 + f) in
  let z := s * s in
  let w := z * z in
  let t1 := w * (0x1.999999997fa04p-2 + w * (0x1.c71c51d8e78afp-3
               + w * 0x1.39a09d078c69fp-3)) in
  let t2 := z * (0x1.5555555555593p-1 + w * (0x1.2492494229359p-2
               + w * (0x1.7466496cb03dep-3 + w * 0x1.2f112df3e5244p-3))) in
  let R := t2 + t1 in
  let hfsq := 0.5 * f * f in
  k * ln2_hi - ((hfsq - (s * (hfsq + R) + k * ln2_lo)) - f).

(** [math.log]: a domain error outside the positive numbers. *)
Definition ref_log (x : float) : res float :=
  if x =? x then
    if x <=? 0 then Exn ValueError
    else if x =? infinity then Ret infinity
    else Ret (log_kernel x)
  else Ret x.

End RefLibm.

(** ** The engine, over any C library *)

(** The variables the first search of [invapx] leaves behind: the touch
    point [(midx, midy)] and the tangent [(Fi, gi)] through it.  They are
    unbound until the body of that search has run once, and keep their
    value from one round of the outer loop to the next. *)
Record tangent : Set := Tangent {
  t_midx : float;
  t_midy : float;
  t_Fi : row;
  t_gi : float
}.

(** The arrays [invapx] grows, newest row first. *)
Record facets : Set := Facets {
  f_F : list row;
  f_g : list float;
  f_xys : list row;
  f_vert : list row;
  f_last : option tangent
}.

Definition polytope : Set := list row * list float.
Definition approx : Set := list row * list float * float.

Section Engine.

Variable m_exp : float -> res float.
Variable m_log : float -> res float.
Variable fuel : nat.

(** [addshp(x, y)]: the tangent line of [lse(x, y) = 0] at [(x, y)]. *)
Definition addshp (x y : float) : res (row * float) :=
  ex <- m_exp x ;;
  ey <- m_exp y ;;
  c <- py_div 1 (ex + ey) ;;
  let Fi := (c * ex, c * ey) in
  let gi := dot ((-1) * fst Fi, (-1) * snd Fi) (x, y) in
  Ret (Fi, gi).

Definition tol_invapx : float := 1e-12.

Definition width_above (tol : float) (s : float * float) : bool :=
  tol <? snd s - fst s.

(** Body of the first search: the tangent at the midpoint of the bracket
    [(ll, uu)], tested at the current vertex [(vx, vy)]. *)
Definition sign_body (vx vy : float) (s : float * float * option tangent)
  : res (float * float * option tangent) :=
  let '(ll, uu, _) := s in
  let midx := (ll + uu) / 2 in
  e <- m_exp midx ;;
  midy <- m_log (1 - e) ;;
  '(Fi, gi) <- addshp midx midy ;;
  let d := dot Fi (vx, vy) + gi in
  let uu' := if 0 <=? d then midx else uu in
  let ll' := if d <=? 0 then midx else ll in
  Ret (ll', uu', Some (Tangent midx midy Fi gi)).

Definition bisect_sign (vx vy ll uu : float) (last : option tangent)
  : res (float * float * option tangent) :=
  while fuel (fun s => width_above tol_invapx (fst s))
        (sign_body vx vy) (ll, uu, last).

(** [math.exp] under [try: ... except OverflowError: z = math.inf]. *)
Definition exp_or_inf (x : float) : res float :=
  match m_exp x with
  | Exn OverflowError => Ret infinity
  | o => o
  end.

(** The height of the line [Fi . (x, y) + gi = 0] at abscissa [x]. *)
Definition line_y (Fi : row) (gi x : float) : float :=
  (- gi - fst Fi * x) / snd Fi.

(** Body of the second search: the value of the function on the new
    facet at the midpoint, compared with [epsilon]. *)
Definition thr_body (epsilon : float) (Fi : row) (gi : float)
           (s : float * float) : res (float * float) :=
  let '(ll, uu) := s in
  let mid := (ll + uu) / 2 in
  midexp <- m_exp mid ;;
  let val := line_y Fi gi mid in
  z <- exp_or_inf val ;;
  midval <- m_log (midexp + z) ;;
  let uu' := if midval <=? epsilon then mid else uu in
  let ll' := if epsilon <=? midval then mid else ll in
  Ret (ll', uu').

Definition bisect_thr (epsilon : float) (Fi : row) (gi ll uu : float)
  : res (float * float) :=
  while fuel (width_above tol_invapx) (thr_body epsilon Fi gi) (ll, uu).

Definition head_vertex (vert : list row) : row :=
  match vert with
  | v :: _ => v
  | [] => (0, 0)
  end.

(** One round of the [while True] loop of [invapx].  The vertex the
    breaking round puts on [vert] is never read: of [-gi / Fi[0]], an
    array, only the first component is kept here. *)
Definition invapx_round (epsilon leftest_x M : float) (st : facets)
  : res (facets + facets) :=
  let '(vx, vy) := head_vertex (f_vert st) in
  '(_, _, last) <- bisect_sign vx vy (- M) vx (f_last st) ;;
  match last with
  | None => Exn UnboundLocalError
  | Some t =>
      let Fi := t_Fi t in
      let gi := t_gi t in
      let xys := (t_midx t, t_midy t) :: f_xys st in
      let F := Fi :: f_F st in
      let g := gi :: f_g st in
      '(ll, _) <- bisect_thr epsilon Fi gi (- M) (t_midx t) ;;
      let vx := ll in
      let vy := line_y Fi gi vx in
      if leftest_x <? vx then
        Ret (inl (Facets F g xys ((vx, vy) :: f_vert st) last))
      else
        Ret (inr (Facets ((0, 1) :: F) (0 :: g) ((neg_infinity, 0) :: xys)
                         ((- gi / fst Fi, 0) :: f_vert st) last))
  end.

(** [invapx(epsilon)]. *)
Definition invapx (epsilon : float) : res polytope :=
  e <- m_exp epsilon ;;
  vy0 <- m_log (e - 1) ;;
  e' <- m_exp epsilon ;;
  leftest_x <- m_log (e' - 1) ;;
  let M := abs (1e2 * leftest_x) in
  st <- loop fuel (invapx_round epsilon leftest_x M)
          (Facets [(1, 0)] [0] [(0, neg_infinity)] [(0, vy0)] None) ;;
  Ret (map (fun f => (np_round8 (fst f), np_round8 (snd f))) (f_F st),
       map np_round8 (f_g st)).

Definition tol_lowerapprox : float := 1e-14.

(** Body of the search on the error in [lowerapprox]. *)
Definition facet_body (r : Z) (s : float * float) : res (float * float) :=
  let '(ll, uu) := s in
  let mid := (uu + ll) / 2 in
  '(A, _) <- invapx mid ;;
  if (r <? Z.of_nat (length A))%Z then Ret (mid, uu) else Ret (ll, mid).

(** [lowerapprox(r)]. *)
Definition lowerapprox (r : Z) : res approx :=
  uu <- m_log 2 ;;
  let ll := 0 in
  if (r =? 2)%Z then
    Ret ([(0, 1); (1, 0)], [0; 0], uu)
  else
    '(_, uu) <- while fuel (width_above tol_lowerapprox) (facet_body r)
                  (ll, uu) ;;
    '(A, b) <- invapx uu ;;
    Ret (A, b, uu).

(** [upperapprox(r)]. *)
Definition upperapprox (r : Z) : res approx :=
  '(A, b, err) <- lowerapprox r ;;
  Ret (A, map (fun bi => err + bi) b, err).

End Engine.

(** The engine on the reference C library, with a budget of [200]
    iterations for every loop. *)
Module Ref.
Definition fuel : nat := 200.
Definition addshp := addshp RefLibm.ref_exp.
Definition invapx := invapx RefLibm.ref_exp RefLibm.ref_log fuel.
Definition lowerapprox := lowerapprox RefLibm.ref_exp RefLibm.ref_log fuel.
Definition upperapprox := upperapprox RefLibm.ref_exp RefLibm.ref_log fuel.
End Ref.

(** * Facts about binary64 arithmetic *)

Module F64.

Lemma prim_eq (x y : float) : Prim2SF x = Prim2SF y -> x = y.
Proof. apply Prim2SF_inj. Qed.

(** Addition is commutative, whatever the operands. *)
Lemma SFadd_comm (x y : spec_float) :
  SFadd prec emax x y = SFadd prec emax y x.
Proof.
  destruct x as [sx|sx| |sx mx ex], y as [sy|sy| |sy my ey];
    try reflexivity; try (destruct sx, sy; reflexivity).
  simpl. rewrite (Z.min_comm ey ex). f_equal. apply Z.add_comm.
Qed.

Lemma add_comm (x y : float) : x + y = y + x.
Proof. apply prim_eq. rewrite !FloatAxioms.add_spec. apply SFadd_comm. Qed.

(** Changing the sign passed to the rounding changes the sign of its
    result and nothing else. *)
Lemma round_aux_opp (s : bool) (m e : Z) (l : location) :
  binary_round_aux prec emax (negb s) m e l
  = SFopp (binary_round_aux prec emax s m e l).
Proof.
  unfold binary_round_aux.
  destruct (shr_fexp prec emax m e l) as [mrs' e'].
  destruct (shr_fexp prec emax _ e' loc_Exact) as [mrs'' e''].
  destruct (shr_m mrs''); try reflexivity.
  destruct (Z.leb e'' (emax - prec)); reflexivity.
Qed.

Lemma round_opp (s : bool) (m : positive) (e : Z) :
  binary_round prec emax (negb s) m e
  = SFopp (binary_round prec emax s m e).
Proof.
  unfold binary_round.
  destruct (shl_align m e _) as [mz ez]. apply round_aux_opp.
Qed.

Lemma SFmul_opp_l (x y : spec_float) :
  SFmul prec emax (SFopp x) y = SFopp (SFmul prec emax x y).
Proof.
  destruct x as [sx|sx| |sx mx ex], y as [sy|sy| |sy my ey];
    try reflexivity; try (destruct sx, sy; reflexivity).
  cbn [SFopp SFmul].
  replace (xorb (negb sx) sy) with (negb (xorb sx sy))
    by (destruct sx, sy; reflexivity).
  apply round_aux_opp.
Qed.

Lemma mul_opp_l (x y : float) : (- x) * y = - (x * y).
Proof.
  apply prim_eq. rewrite FloatAxioms.mul_spec, !FloatAxioms.opp_spec, FloatAxioms.mul_spec. apply SFmul_opp_l.
Qed.

Definition is_zero (x : spec_float) : bool :=
  match x with S754_zero _ => true | _ => false end.

Definition is_finite (x : spec_float) : bool :=
  match x with S754_zero _ | S754_finite _ _ _ => true | _ => false end.

(** Negating both operands of a sum negates the sum, up to the sign of
    a zero. *)
Lemma SFadd_opp_opp (x y : spec_float) :
  SFadd prec emax (SFopp x) (SFopp y) = SFopp (SFadd prec emax x y)
  \/ (is_zero (SFadd prec emax (SFopp x) (SFopp y)) = true
      /\ is_zero (SFadd prec emax x y) = true).
Proof.
  destruct x as [sx|sx| |sx mx ex], y as [sy|sy| |sy my ey];
    try (left; reflexivity);
    try (destruct sx, sy; (left; reflexivity) || (right; split; reflexivity)).
  cbn [SFopp SFadd].
  set (a := Zpos (fst (shl_align mx ex (Z.min ex ey)))).
  set (b := Zpos (fst (shl_align my ey (Z.min ex ey)))).
  replace (cond_Zopp (negb sx) a + cond_Zopp (negb sy) b)%Z
    with (- (cond_Zopp sx a + cond_Zopp sy b))%Z
    by (destruct sx, sy; unfold cond_Zopp; cbn [negb]; lia).
  destruct (cond_Zopp sx a + cond_Zopp sy b)%Z as [|p|p]; cbn [Z.opp].
  - right. split; reflexivity.
  - left. apply (round_opp false).
  - left. apply (round_opp true).
Qed.

(** A finite number and its opposite add up to zero. *)
Lemma SFadd_opp_r (x : spec_float) :
  is_finite x = true -> is_zero (SFadd prec emax x (SFopp x)) = true.
Proof.
  destruct x as [s|s| |s m e]; try discriminate; intros _.
  - destruct s; reflexivity.
  - cbn [SFopp SFadd]. rewrite Z.min_id.
    unfold shl_align. rewrite Z.sub_diag. cbn [fst].
    replace (cond_Zopp s (Zpos m) + cond_Zopp (negb s) (Zpos m))%Z with 0%Z
      by (destruct s; unfold cond_Zopp; cbn [negb]; lia).
    reflexivity.
Qed.

Lemma SFadd_zero_zero (x y : spec_float) :
  is_zero x = true -> is_zero y = true ->
  is_zero (SFadd prec emax x y) = true.
Proof.
  destruct x as [[]| | |], y as [[]| | |]; try discriminate; reflexivity.
Qed.

Lemma is_zero_eqb (x : float) :
  is_zero (Prim2SF x) = true -> (x =? 0) = true.
Proof.
  rewrite FloatAxioms.eqb_spec. destruct (Prim2SF x); try discriminate. reflexivity.
Qed.

(** Multiplying by [-1] is negation.  The mantissa of [-1] is [2^52]:
    the product carries 52 extra zero bits, which the rounding shifts
    out again without loss. *)
Lemma shr52 (m : positive) :
  SpecFloat.iter_pos shr_1 52%positive
    (Build_shr_record (Zpos (4503599627370496 * m)) false false)
  = Build_shr_record (Zpos m) false false.
Proof. reflexivity. Qed.

Lemma digits52 (m : positive) :
  Zpos (digits2_pos (4503599627370496 * m))
  = (Zpos (digits2_pos m) + 52)%Z.
Proof.
  change (4503599627370496 * m)%positive with (Pos.iter xO m 52).
  cbn [Pos.iter digits2_pos]. rewrite !Pos2Z.inj_succ. lia.
Qed.

Lemma SFmul_m1 (x : spec_float) :
  valid_binary x = true ->
  SFmul prec emax (S754_finite true 4503599627370496 (-52)) x = SFopp x.
Proof.
  destruct x as [s|s| |s m e]; try reflexivity.
  unfold valid_binary. cbn [SpecFloat.valid_binary SFmul SFopp].
  unfold bounded, canonical_mantissa.
  intros H. apply andb_prop in H. destruct H as [Hc Hb].
  apply Z.eqb_eq in Hc.
  unfold binary_round_aux, shr_fexp. cbn [Zdigits2].
  rewrite digits52.
  replace (Zpos (digits2_pos m) + 52 + (-52 + e))%Z
    with (Zpos (digits2_pos m) + e)%Z by lia.
  rewrite Hc.
  replace (e - (-52 + e))%Z with 52%Z by lia.
  cbn [shr_record_of_loc shr]. rewrite shr52.
  cbn [shr_m loc_of_shr_record round_nearest_even Zdigits2
       shr_record_of_loc].
  replace (-52 + e + 52)%Z with e by lia.
  rewrite Hc, Z.sub_diag. cbn [shr shr_m].
  rewrite Hb. reflexivity.
Qed.

Lemma mul_m1 (x : float) : (-1) * x = - x.
Proof.
  apply prim_eq. rewrite FloatAxioms.mul_spec, FloatAxioms.opp_spec.
  change (Prim2SF (-1)) with (S754_finite true 4503599627370496 (-52)).
  apply SFmul_m1, Prim2SF_valid.
Qed.



End F64.

(** * Reasoning about loops *)

Lemma bind_ret {A B : Type} (m : res A) (k : A -> res B) (b : B) :
  bind m k = Ret b -> exists a, m = Ret a /\ k a = Ret b.
Proof. destruct m; simpl; intros H; try discriminate. eauto. Qed.

(** What holds before a [while] loop and is kept by its body holds when it
    is left, where its condition is false. *)
Lemma while_inv {S : Type} (P : S -> Prop) (cond : S -> bool)
      (body : S -> res S) :
  (forall s s', P s -> cond s = true -> body s = Ret s' -> P s') ->
  forall fuel s s',
    P s -> while fuel cond body s = Ret s' -> P s' /\ cond s' = false.
Proof.
  intros Hstep. induction fuel as [|n IH]; intros s s' HP H; simpl in H;
    destruct (cond s) eqn:Hc; try discriminate;
    try (inversion H; subst; auto; fail).
  apply bind_ret in H. destruct H as (s1 & Hb & Hw). eauto.
Qed.

(** What is kept by every round of a [while True] loop gives, at the round
    that breaks, what that round establishes. *)
Lemma loop_inv {S R : Type} (P : S -> Prop) (Q : R -> Prop)
      (body : S -> res (S + R)) :
  (forall s s', P s -> body s = Ret (inl s') -> P s') ->
  (forall s r, P s -> body s = Ret (inr r) -> Q r) ->
  forall fuel s r, P s -> loop fuel body s = Ret r -> Q r.
Proof.
  intros Hl Hr. induction fuel as [|n IH]; intros s r HP H; simpl in H;
    try discriminate.
  apply bind_ret in H. destruct H as ([s1|r1] & Hb & Hw).
  - eauto.
  - inversion Hw; subst. eauto.
Qed.

Create HintDb clean.

(** A computation is [clean] when it does not end in [InvalidArgument]. *)
Definition clean {A : Type} (m : res A) : Prop := m <> Exn InvalidArgument.

Lemma clean_ret {A : Type} (a : A) : clean (Ret a).
Proof. discriminate. Qed.

Lemma clean_bind {A B : Type} (m : res A) (k : A -> res B) :
  clean m -> (forall a, clean (k a)) -> clean (bind m k).
Proof.
  unfold clean. intros Hm Hk. destruct m as [a|e|]; simpl.
  - apply Hk.
  - intros H. apply Hm. inversion H. reflexivity.
  - discriminate.
Qed.

Lemma clean_while {S : Type} (cond : S -> bool) (body : S -> res S) :
  (forall s, clean (body s)) -> forall fuel s, clean (while fuel cond body s).
Proof.
  intros Hb. induction fuel as [|n IH]; intros s; simpl;
    destruct (cond s); try discriminate.
  apply clean_bind; auto.
Qed.

Lemma clean_loop {S R : Type} (body : S -> res (S + R)) :
  (forall s, clean (body s)) -> forall fuel s, clean (loop fuel body s).
Proof.
  intros Hb. induction fuel as [|n IH]; intros s; simpl; try discriminate.
  apply clean_bind; auto. intros [s'|r]; auto using clean_ret.
Qed.

Lemma clean_py_div (a b : float) : clean (py_div a b).
Proof. unfold py_div. destruct (b =? 0); discriminate. Qed.

#[local] Hint Resolve clean_ret clean_py_div : clean.

(** * The shape of what the engine returns *)

Section Shape.

Variable m_exp : float -> res float.
Variable m_log : float -> res float.
Variable fuel : nat.


(** A round of [invapx] puts one tangent in front of the facets, and the
    round that breaks puts the facet [[0, 1]] in front of that. *)
Lemma invapx_round_shape epsilon lx M st o :
  invapx_round m_exp m_log fuel epsilon lx M st = Ret o ->
  exists Fi gi,
    match o with
    | inl st' => f_F st' = Fi :: f_F st /\ f_g st' = gi :: f_g st
    | inr st' =>
        f_F st' = (0, 1) :: Fi :: f_F st /\ f_g st' = 0 :: gi :: f_g st
    end.
Proof.
  unfold invapx_round. destruct (head_vertex (f_vert st)) as [vx vy].
  intros H. apply bind_ret in H. destruct H as ([[ll uu] last] & _ & H).
  destruct last as [t|]; try discriminate.
  apply bind_ret in H. destruct H as ([ll2 uu2] & _ & H).
  destruct (lx <? ll2); inversion H; subst; cbn [f_F f_g]; eauto.
Qed.

(** The facets while [invapx] runs: some tangents, then [[1, 0]]. *)
Definition growing (st : facets) : Prop :=
  exists F g,
    f_F st = F ++ [(1, 0)] /\ f_g st = g ++ [0] /\ length F = length g.

(** The facets when [invapx] breaks out of its loop. *)
Definition closed_off (F : list row) (g : list float) : Prop :=
  exists F' g',
    F = (0, 1) :: F' ++ [(1, 0)] /\ g = 0 :: g' ++ [0]
    /\ length F' = length g' /\ (1 <= length F')%nat.

Lemma invapx_loop_shape epsilon lx M n st st' :
  growing st ->
  loop n (invapx_round m_exp m_log fuel epsilon lx M) st = Ret st' ->
  closed_off (f_F st') (f_g st').
Proof.
  apply (loop_inv growing (fun r => closed_off (f_F r) (f_g r))).
  - intros s s' (F & g & HF & Hg & Hlen) H.
    apply invapx_round_shape in H. destruct H as (Fi & gi & HF' & Hg').
    exists (Fi :: F), (gi :: g). rewrite HF', Hg', HF, Hg. simpl. auto.
  - intros s r (F & g & HF & Hg & Hlen) H.
    apply invapx_round_shape in H. destruct H as (Fi & gi & HF' & Hg').
    exists (Fi :: F), (gi :: g). rewrite HF', Hg', HF, Hg. simpl.
    repeat split; auto. lia.
Qed.

Lemma np_round8_0 : np_round8 0 = 0.
Proof. reflexivity. Qed.

Lemma np_round8_1 : np_round8 1 = 1.
Proof. reflexivity. Qed.

(** Every polytope [invapx] returns is closed off by the two axis
    facets, which the final rounding leaves as they are. *)
Lemma invapx_shape epsilon F g :
  invapx m_exp m_log fuel epsilon = Ret (F, g) -> closed_off F g.
Proof.
  unfold invapx. intros H.
  apply bind_ret in H. destruct H as (e & _ & H).
  apply bind_ret in H. destruct H as (vy0 & _ & H).
  apply bind_ret in H. destruct H as (e' & _ & H).
  apply bind_ret in H. destruct H as (lx & _ & H).
  apply bind_ret in H. destruct H as (st & Hloop & H).
  apply invapx_loop_shape in Hloop.
  2:{ exists [], []. auto. }
  destruct Hloop as (F' & g' & HF & Hg & Hlen & Hpos).
  inversion H; subst F g. rewrite HF, Hg.
  exists (map (fun f => (np_round8 (fst f), np_round8 (snd f))) F'),
         (map np_round8 g').
  cbn [map fst snd]. rewrite !map_app. cbn [map fst snd].
  rewrite np_round8_0, np_round8_1, !length_map. auto.
Qed.

Lemma closed_off_rows F g :
  closed_off F g ->
  hd_error F = Some (0, 1) /\ hd_error g = Some 0
  /\ last F (0, 0) = (1, 0) /\ last g 1 = 0
  /\ (3 <= length F)%nat /\ length g = length F.
Proof.
  intros (F' & g' & -> & -> & Hlen & Hpos).
  repeat split.
  - change ((0, 1) :: F' ++ [(1, 0)]) with (((0, 1) :: F') ++ [(1, 0)]).
    apply last_last.
  - change (0 :: g' ++ [0]) with ((0 :: g') ++ [0]). apply last_last.
  - cbn [length]. rewrite length_app. simpl. lia.
  - cbn [length]. rewrite !length_app. simpl. lia.
Qed.

(** For [r] other than [2], [lowerapprox] hands back what [invapx]
    returns at the error it settles on. *)
Lemma lowerapprox_invapx r A b err :
  r <> 2%Z ->
  lowerapprox m_exp m_log fuel r = Ret (A, b, err) ->
  invapx m_exp m_log fuel err = Ret (A, b).
Proof.
  unfold lowerapprox. intros Hr H.
  apply bind_ret in H. destruct H as (uu & _ & H).
  destruct (Z.eqb_spec r 2) as [|_]; try contradiction.
  apply bind_ret in H. destruct H as ([ll uu'] & _ & H).
  apply bind_ret in H. destruct H as ([A' b'] & Hinv & H).
  inversion H; subst. exact Hinv.
Qed.

End Shape.

(** * No argument is ever rejected *)

Ltac clean_step :=
  match goal with
  | |- clean (Ret _) => apply clean_ret
  | |- clean (bind _ _) => apply clean_bind; [ | intros ? ]
  | |- clean (let '(_, _) := ?x in _) => destruct x
  | |- clean (if ?c then _ else _) => destruct c
  | |- clean (match ?x with Some _ => _ | None => _ end) => destruct x
  | |- clean (Exn UnboundLocalError) => discriminate
  end.

Ltac clean_all := repeat clean_step; auto with clean.

Section Clean.

Variable m_exp : float -> res float.
Variable m_log : float -> res float.
Variable fuel : nat.
Hypothesis exp_clean : forall x, clean (m_exp x).
Hypothesis log_clean : forall x, clean (m_log x).

Lemma clean_addshp x y : clean (addshp m_exp x y).
Proof. unfold addshp. clean_all. Qed.

Lemma clean_exp_or_inf x : clean (exp_or_inf m_exp x).
Proof.
  unfold exp_or_inf. pose proof (exp_clean x) as H.
  destruct (m_exp x) as [a|[]|]; auto; discriminate.
Qed.

Lemma clean_sign_body vx vy s : clean (sign_body m_exp m_log vx vy s).
Proof.
  unfold sign_body. destruct s as [[ll uu] last].
  pose proof clean_addshp. clean_all.
Qed.

Lemma clean_thr_body epsilon Fi gi s :
  clean (thr_body m_exp m_log epsilon Fi gi s).
Proof.
  unfold thr_body. destruct s as [ll uu].
  pose proof clean_exp_or_inf. clean_all.
Qed.

Lemma clean_invapx_round epsilon lx M st :
  clean (invapx_round m_exp m_log fuel epsilon lx M st).
Proof.
  unfold invapx_round, bisect_sign, bisect_thr.
  destruct (head_vertex (f_vert st)) as [vx vy].
  apply clean_bind.
  - apply clean_while, clean_sign_body.
  - intros [[ll uu] [t|]]; try discriminate.
    apply clean_bind.
    + apply clean_while, clean_thr_body.
    + intros [ll2 uu2]. clean_all.
Qed.

Lemma clean_invapx epsilon : clean (invapx m_exp m_log fuel epsilon).
Proof.
  unfold invapx. do 4 (apply clean_bind; [ auto | intros ? ]).
  apply clean_bind; [ | intros ?; apply clean_ret ].
  apply clean_loop. intros s. apply clean_invapx_round.
Qed.

Lemma clean_facet_body r s : clean (facet_body m_exp m_log fuel r s).
Proof.
  unfold facet_body. destruct s as [ll uu].
  apply clean_bind; [ apply clean_invapx | ].
  intros [A b]. clean_all.
Qed.

Lemma clean_lowerapprox r : clean (lowerapprox m_exp m_log fuel r).
Proof.
  unfold lowerapprox. apply clean_bind; [ auto | intros uu ].
  destruct (r =? 2)%Z; [ apply clean_ret | ].
  apply clean_bind; [ apply clean_while, clean_facet_body | ].
  intros [ll uu']. apply clean_bind; [ apply clean_invapx | ].
  intros [A b]. apply clean_ret.
Qed.

Lemma clean_upperapprox r : clean (upperapprox m_exp m_log fuel r).
Proof.
  unfold upperapprox. apply clean_bind; [ apply clean_lowerapprox | ].
  intros [[A b] err]. apply clean_ret.
Qed.

End Clean.

(** The reference C library raises nothing but range and domain errors. *)
Lemma ref_exp_clean x : clean (RefLibm.ref_exp x).
Proof.
  unfold RefLibm.ref_exp.
  repeat match goal with |- clean (if ?c then _ else _) => destruct c end;
    discriminate.
Qed.

Lemma ref_log_clean x : clean (RefLibm.ref_log x).
Proof.
  unfold RefLibm.ref_log.
  repeat match goal with |- clean (if ?c then _ else _) => destruct c end;
    discriminate.
Qed.

(** * The claims *)

Section Claims.

Variable m_exp : float -> res float.
Variable m_log : float -> res float.
Variable fuel : nat.

(** C1, as amended: [lowerapprox(2)] returns the closed-form polytope
    [A = [[0, 1], [1, 0]]], [b = [0, 0]] without any search, and reports as
    its error [math.log(2)], the value the upper end [uu] of the search
    starts from, not [0]. *)
Theorem lowerapprox_two (l : float) :
  m_log 2 = Ret l ->
  lowerapprox m_exp m_log fuel 2 = Ret ([(0, 1); (1, 0)], [0; 0], l).
Proof.
  intros H. unfold lowerapprox. rewrite H. reflexivity.
Qed.

(** For [r] below [3] every trial polytope has more than [r] facets, so
    the search on the error only ever moves its lower end. *)
Lemma facet_body_small (r : Z) (s s' : float * float) :
  (r < 3)%Z ->
  facet_body m_exp m_log fuel r s = Ret s' -> snd s' = snd s.
Proof.
  intros Hr. unfold facet_body. destruct s as [ll uu]. intros H.
  apply bind_ret in H. destruct H as ([A b] & Hinv & H).
  apply invapx_shape, closed_off_rows in Hinv.
  destruct Hinv as (_ & _ & _ & _ & Hlen & _).
  destruct (Z.ltb_spec r (Z.of_nat (length A))) as [_|Hge]; [ | lia ].
  inversion H; subst. reflexivity.
Qed.

(** For [r] below [3], a trial of the search ends as [invapx] ends at the
    midpoint of the bracket and, when that returns, moves the lower end of
    the bracket there. *)
Lemma facet_body_moves_lower (r : Z) (ll uu : float) :
  (r < 3)%Z ->
  facet_body m_exp m_log fuel r (ll, uu)
  = ('(_, _) <- invapx m_exp m_log fuel ((uu + ll) / 2) ;;
     Ret ((uu + ll) / 2, uu)).
Proof.
  intros Hr. unfold facet_body.
  destruct (invapx m_exp m_log fuel ((uu + ll) / 2)) as [[A b]|e|] eqn:Hinv;
    cbn [bind]; try reflexivity.
  apply invapx_shape, closed_off_rows in Hinv.
  destruct Hinv as (_ & _ & _ & _ & Hlen & _).
  destruct (Z.ltb_spec r (Z.of_nat (length A))) as [_|Hge]; [ reflexivity | lia ].
Qed.

(** C3, as amended: [lowerapprox] and [upperapprox] check nothing about
    [r].  For [r < 2] they take the search branch like any [r] other than
    [2].  Every polytope [invapx] returns has more than [r] facets, so
    every trial of the search ends as [invapx] ends and, when that returns,
    moves the lower end of the bracket to the midpoint: the upper end
    stays at [math.log(2)].  Once the search is over, the call ends as
    [invapx(math.log(2))] ends: it returns that polytope with the error
    [math.log(2)], or raises what [invapx] raises, never
    [InvalidArgument]. *)
Theorem lowerapprox_unvalidated (r : Z) (uu0 ll' uu' : float) :
  (r < 2)%Z ->
  (forall x, clean (m_exp x)) ->
  (forall x, clean (m_log x)) ->
  m_log 2 = Ret uu0 ->
  while fuel (width_above tol_lowerapprox) (facet_body m_exp m_log fuel r)
        (0, uu0) = Ret (ll', uu') ->
  (forall epsilon A b,
      invapx m_exp m_log fuel epsilon = Ret (A, b) ->
      (r < Z.of_nat (length A))%Z)
  /\ (forall ll uu,
         facet_body m_exp m_log fuel r (ll, uu)
         = ('(_, _) <- invapx m_exp m_log fuel ((uu + ll) / 2) ;;
            Ret ((uu + ll) / 2, uu)))
  /\ uu' = uu0
  /\ lowerapprox m_exp m_log fuel r
     = ('(A, b) <- invapx m_exp m_log fuel uu0 ;; Ret (A, b, uu0))
  /\ upperapprox m_exp m_log fuel r
     = ('(A, b) <- invapx m_exp m_log fuel uu0 ;;
        Ret (A, map (fun bi => uu0 + bi) b, uu0))
  /\ clean (lowerapprox m_exp m_log fuel r)
  /\ clean (upperapprox m_exp m_log fuel r).
Proof.
  intros Hr He Hl Hlog Hw.
  assert (Huu : uu' = uu0).
  { apply (while_inv (fun s => snd s = uu0)) in Hw; [ | | reflexivity ].
    - destruct Hw as [Huu _]. exact Huu.
    - intros s s' Hs _ Hb. apply facet_body_small in Hb; [ | lia ].
      congruence. }
  assert (Hlow : lowerapprox m_exp m_log fuel r
                 = ('(A, b) <- invapx m_exp m_log fuel uu0 ;;
                    Ret (A, b, uu0))).
  { unfold lowerapprox. rewrite Hlog. cbn [bind].
    destruct (Z.eqb_spec r 2) as [|_]; [ lia | ].
    cbv zeta. rewrite Hw. cbn [bind]. rewrite Huu. reflexivity. }
  split.
  { intros epsilon A b Hinv. apply invapx_shape, closed_off_rows in Hinv.
    destruct Hinv as (_ & _ & _ & _ & Hlen & _). lia. }
  split; [ intros ll uu; apply facet_body_moves_lower; lia | ].
  split; [ exact Huu | ]. split; [ exact Hlow | ].
  split.
  { unfold upperapprox. rewrite Hlow.
    destruct (invapx m_exp m_log fuel uu0) as [[A b]|e|]; reflexivity. }
  split; [ apply clean_lowerapprox | apply clean_upperapprox ]; assumption.
Qed.

(** C4: whenever [lowerapprox(r)] returns [(A, b, err)] for an [r >= 2],
    [upperapprox(r)] returns the same [A] and [err], and offsets [b'] of
    the same length with [b'[i] = b[i] + err] at every index. *)
Theorem upperapprox_shifts (r : Z) (A : list row) (b : list float)
        (err : float) :
  (2 <= r)%Z ->
  lowerapprox m_exp m_log fuel r = Ret (A, b, err) ->
  exists b',
    upperapprox m_exp m_log fuel r = Ret (A, b', err)
    /\ length b' = length b
    /\ forall i, (i < length b)%nat -> nth i b' 0 = nth i b 0 + err.
Proof.
  intros _ H. unfold upperapprox. rewrite H. cbn [bind].
  exists (map (fun bi => err + bi) b). split; [ reflexivity | ].
  split; [ apply length_map | ].
  intros i Hi.
  rewrite (nth_indep _ 0 (err + 0)) by (rewrite length_map; exact Hi).
  rewrite (map_nth (fun bi => err + bi)). apply F64.add_comm.
Qed.


(** A number [np.round(., 8)] returns. *)
Definition rounded8 (c : float) : Prop := exists v, c = np_round8 v.

Definition row_rounded8 (a : row) : Prop :=
  rounded8 (fst a) /\ rounded8 (snd a).

Lemma invapx_rounded (epsilon : float) (F : list row) (g : list float) :
  invapx m_exp m_log fuel epsilon = Ret (F, g) ->
  Forall row_rounded8 F /\ Forall rounded8 g.
Proof.
  unfold invapx. intros H.
  apply bind_ret in H. destruct H as (e & _ & H).
  apply bind_ret in H. destruct H as (vy0 & _ & H).
  apply bind_ret in H. destruct H as (e' & _ & H).
  apply bind_ret in H. destruct H as (lx & _ & H).
  apply bind_ret in H. destruct H as (st & _ & H).
  inversion H; subst F g. split; apply Forall_forall; intros c Hc;
    apply in_map_iff in Hc; destruct Hc as (v & <- & _).
  - split; cbn [fst snd]; eexists; reflexivity.
  - eexists; reflexivity.
Qed.

(** C7, as amended: for every [r >= 2], every entry of [A] and of [b]
    that [lowerapprox(r)] returns is a number rounded to 8 decimals, the
    result of [np.round(., 8)] (for [r = 2], the numbers [0] and [1]); and
    [upperapprox(r)] returns the same [A], while its offsets are those
    rounded offsets plus the unrounded error, not rounded again. *)
Theorem coefficients_rounded (r : Z) (A : list row) (b : list float)
        (err : float) :
  (2 <= r)%Z ->
  lowerapprox m_exp m_log fuel r = Ret (A, b, err) ->
  Forall row_rounded8 A
  /\ Forall rounded8 b
  /\ upperapprox m_exp m_log fuel r
     = Ret (A, map (fun bi => err + bi) b, err).
Proof.
  intros _ H.
  assert (Hup : upperapprox m_exp m_log fuel r
                = Ret (A, map (fun bi => err + bi) b, err))
    by (unfold upperapprox; rewrite H; reflexivity).
  destruct (Z.eq_dec r 2) as [->|Hr].
  - unfold lowerapprox in H.
    apply bind_ret in H. destruct H as (uu & _ & H).
    cbn in H. inversion H; subst.
    assert (H0 : rounded8 0) by (exists 0; reflexivity).
    assert (H1 : rounded8 1) by (exists 1; reflexivity).
    repeat split; auto; repeat constructor; auto.
  - apply lowerapprox_invapx in H; [ | exact Hr ].
    apply invapx_rounded in H. tauto.
Qed.

(** C9, as amended: whenever [math.exp(x)] and [math.exp(y)] return, with
    a sum other than zero, [addshp(x, y)] returns the normal
    [Fi = 1 / (exp(x) + exp(y)) * (exp(x), exp(y))] and the offset
    [gi = (-Fi) . (x, y)]; and whenever [Fi . (x, y)] is finite,
    [Fi . (x, y) + gi] is zero: the line passes through [(x, y)]. *)
Theorem addshp_tangent (x y ex ey : float) :
  m_exp x = Ret ex ->
  m_exp y = Ret ey ->
  (ex + ey =? 0) = false ->
  exists Fi gi,
    addshp m_exp x y = Ret (Fi, gi)
    /\ Fi = (1 / (ex + ey) * ex, 1 / (ex + ey) * ey)
    /\ gi = dot (- fst Fi, - snd Fi) (x, y)
    /\ (F64.is_finite (Prim2SF (dot Fi (x, y))) = true ->
        (dot Fi (x, y) + gi =? 0) = true).
Proof.
  intros Hx Hy Hs. unfold addshp, py_div. rewrite Hx, Hy. cbn [bind].
  rewrite Hs. cbn [bind fst snd].
  set (F0 := 1 / (ex + ey) * ex). set (F1 := 1 / (ex + ey) * ey).
  exists (F0, F1), (dot (-1 * F0, -1 * F1) (x, y)).
  split; [ reflexivity | ]. split; [ reflexivity | ].
  unfold dot. cbn [fst snd]. rewrite !F64.mul_m1.
  split; [ reflexivity | ].
  intros Hfin. apply F64.is_zero_eqb.
  rewrite !F64.mul_opp_l.
  set (p := F0 * x) in *. set (q := F1 * y) in *.
  rewrite FloatAxioms.add_spec.
  assert (Hg : Prim2SF (- p + - q)
               = SFadd prec emax (SFopp (Prim2SF p)) (SFopp (Prim2SF q)))
    by (rewrite FloatAxioms.add_spec, !FloatAxioms.opp_spec; reflexivity).
  rewrite Hg.
  assert (Ht : Prim2SF (p + q) = SFadd prec emax (Prim2SF p) (Prim2SF q))
    by apply FloatAxioms.add_spec.
  rewrite Ht in *.
  destruct (F64.SFadd_opp_opp (Prim2SF p) (Prim2SF q)) as [Ho|[Hz1 Hz2]].
  - rewrite Ho. apply F64.SFadd_opp_r, Hfin.
  - apply F64.SFadd_zero_zero; assumption.
Qed.

(** C10: every polytope [invapx] returns, and so every polytope
    [lowerapprox] returns for [r > 2], has [[0, 1]] with offset [0] as its
    first facet, [[1, 0]] with offset [0] as its last, and at least three
    facets (one offset for each). *)
Theorem invapx_axis_facets (F : list row) (g : list float) :
  (exists epsilon, invapx m_exp m_log fuel epsilon = Ret (F, g))
  \/ (exists r err,
        (2 < r)%Z /\ lowerapprox m_exp m_log fuel r = Ret (F, g, err)) ->
  hd_error F = Some (0, 1) /\ hd_error g = Some 0
  /\ last F (0, 0) = (1, 0) /\ last g 1 = 0
  /\ (3 <= length F)%nat /\ length g = length F.
Proof.
  intros [(epsilon & H)|(r & err & Hr & H)].
  - apply closed_off_rows, (invapx_shape _ _ _ _ _ _ H).
  - apply lowerapprox_invapx in H; [ | lia ].
    apply closed_off_rows, (invapx_shape _ _ _ _ _ _ H).
Qed.

End Claims.

(** * The engine at work on the reference C library *)

(** ** [r = 2] *)

Lemma lowerapprox_two_witness :
  RefLibm.ref_log 2 = Ret 0.69314718055994529
  /\ Ref.lowerapprox 2
     = Ret ([(0, 1); (1, 0)], [0; 0], 0.69314718055994529).
Proof.
  split; [ reflexivity | ].
  apply (lowerapprox_two RefLibm.ref_exp RefLibm.ref_log Ref.fuel).
  reflexivity.
Defined.

(** C1 as stated fails: the error [lowerapprox(2)] returns is not zero. *)
Lemma lowerapprox_two_error_not_zero :
  ~ (exists A b err,
       Ref.lowerapprox 2 = Ret (A, b, err) /\ (err =? 0) = true).
Proof.
  intros (A & b & err & H & Hz).
  vm_compute in H. inversion H; subst. vm_compute in Hz. discriminate.
Qed.

(** ** [r < 2] *)

Lemma lowerapprox_unvalidated_witness :
  (1 < 2)%Z
  /\ RefLibm.ref_log 2 = Ret 0.69314718055994529
  /\ while Ref.fuel (width_above tol_lowerapprox)
           (facet_body RefLibm.ref_exp RefLibm.ref_log Ref.fuel 1)
           (0, 0.69314718055994529)
     = Ret (0.69314718055993541, 0.69314718055994529)
  /\ (forall epsilon A b,
         Ref.invapx epsilon = Ret (A, b) -> (1 < Z.of_nat (length A))%Z)
  /\ (forall ll uu,
         facet_body RefLibm.ref_exp RefLibm.ref_log Ref.fuel 1 (ll, uu)
         = ('(_, _) <- Ref.invapx ((uu + ll) / 2) ;; Ret ((uu + ll) / 2, uu)))
  /\ 0.69314718055994529 = 0.69314718055994529
  /\ Ref.lowerapprox 1
     = ('(A, b) <- Ref.invapx 0.69314718055994529 ;;
        Ret (A, b, 0.69314718055994529))
  /\ Ref.upperapprox 1
     = ('(A, b) <- Ref.invapx 0.69314718055994529 ;;
        Ret (A, map (fun bi => 0.69314718055994529 + bi) b,
             0.69314718055994529))
  /\ clean (Ref.lowerapprox 1)
  /\ clean (Ref.upperapprox 1).
Proof.
  assert (Hlog : RefLibm.ref_log 2 = Ret 0.69314718055994529)
    by reflexivity.
  assert (Hw : while Ref.fuel (width_above tol_lowerapprox)
                     (facet_body RefLibm.ref_exp RefLibm.ref_log Ref.fuel 1)
                     (0, 0.69314718055994529)
               = Ret (0.69314718055993541, 0.69314718055994529))
    by (vm_compute; reflexivity).
  split; [ lia | ]. split; [ exact Hlog | ]. split; [ exact Hw | ].
  exact (lowerapprox_unvalidated RefLibm.ref_exp RefLibm.ref_log Ref.fuel 1
           0.69314718055994529 0.69314718055993541 0.69314718055994529
           ltac:(lia) ref_exp_clean ref_log_clean Hlog Hw).
Defined.

(** C3 as stated fails: with [r = 1] or [r = 0] the search runs until
    [invapx(log 2)], whose first search has an empty bracket and leaves
    [midx] unbound. *)
Lemma lowerapprox_one_not_rejected :
  Ref.lowerapprox 1 = Exn UnboundLocalError
  /\ Ref.lowerapprox 0 = Exn UnboundLocalError
  /\ Ref.upperapprox 1 = Exn UnboundLocalError
  /\ Ref.lowerapprox 1 <> Exn InvalidArgument.
Proof.
  assert (H1 : Ref.lowerapprox 1 = Exn UnboundLocalError)
    by (vm_compute; reflexivity).
  repeat split; try exact H1; try (vm_compute; reflexivity).
  rewrite H1. discriminate.
Qed.

(** ** The upper approximation *)

Lemma upperapprox_shifts_witness :
  (2 <= 2)%Z
  /\ Ref.lowerapprox 2 = Ret ([(0, 1); (1, 0)], [0; 0], 0.69314718055994529)
  /\ exists b',
      Ref.upperapprox 2 = Ret ([(0, 1); (1, 0)], b', 0.69314718055994529)
      /\ length b' = 2%nat
      /\ forall i, (i < 2)%nat ->
                   nth i b' 0 = nth i [0; 0] 0 + 0.69314718055994529.
Proof.
  split; [ lia | ]. split; [ reflexivity | ].
  apply (upperapprox_shifts RefLibm.ref_exp RefLibm.ref_log Ref.fuel 2
           [(0, 1); (1, 0)] [0; 0] 0.69314718055994529).
  - lia.
  - reflexivity.
Defined.

(** C7 as stated fails on [upperapprox]: the offsets it returns are the
    rounded offsets of [lowerapprox] plus the unrounded error, and are not
    rounded again.  At [r = 3] none of the three is its own rounding to 8
    decimals, while the offsets [lowerapprox(3)] returns all are. *)
Theorem upperapprox_offsets_unrounded :
  Ref.upperapprox 3
  = Ret ([(0, 1); (0.5, 0.5); (1, 0)],
         [0.22314355131411573; 0.91629073131411576; 0.22314355131411573],
         0.22314355131411573)
  /\ map np_round8
         [0.22314355131411573; 0.91629073131411576; 0.22314355131411573]
     = [0.22314355; 0.91629073000000005; 0.22314355]
  /\ forallb (fun bi => np_round8 bi =? bi)
             [0.22314355131411573; 0.91629073131411576; 0.22314355131411573]
     = false
  /\ Ref.lowerapprox 3
     = Ret ([(0, 1); (0.5, 0.5); (1, 0)], [0; 0.69314717999999997; 0],
            0.22314355131411573)
  /\ forallb (fun bi => np_round8 bi =? bi) [0; 0.69314717999999997; 0]
     = true.
Proof.
  repeat split; vm_compute; reflexivity.
Qed.

(** ** Overflow in the second search *)

(** At [epsilon = 0.001] the first facet [invapx] finds is the tangent
    below; the second search then starts on the bracket from [-M] to the
    touch point, and [math.exp] overflows at its first midpoint. *)
Lemma overflow_state_reached :
  bisect_sign RefLibm.ref_exp RefLibm.ref_log Ref.fuel
              0 (-6.9072552373154279) (-690.72552373154281) 0 None
  = Ret (-0.0027196422607659119, -0.0027196422601524243,
         Some (Tangent (-0.0027196422601524243) (-5.9086144422713218)
                       (0.99728405261651931, 0.002715947383480688)
                       0.01875974178935496))
  /\ returns (Ref.invapx 0.001) = true.
Proof.
  split; vm_compute; reflexivity.
Qed.


(** ** Tangents *)

Lemma addshp_tangent_witness :
  RefLibm.ref_exp (-0.5) = Ret 0.60653065971263342
  /\ RefLibm.ref_exp (-1) = Ret 0.36787944117144233
  /\ (0.60653065971263342 + 0.36787944117144233 =? 0) = false
  /\ exists Fi gi,
      Ref.addshp (-0.5) (-1) = Ret (Fi, gi)
      /\ Fi = (1 / (0.60653065971263342 + 0.36787944117144233)
               * 0.60653065971263342,
               1 / (0.60653065971263342 + 0.36787944117144233)
               * 0.36787944117144233)
      /\ gi = dot (- fst Fi, - snd Fi) (-0.5, -1)
      /\ (F64.is_finite (Prim2SF (dot Fi (-0.5, -1))) = true ->
          (dot Fi (-0.5, -1) + gi =? 0) = true).
Proof.
  split; [ reflexivity | ]. split; [ reflexivity | ].
  split; [ reflexivity | ].
  apply (addshp_tangent RefLibm.ref_exp (-0.5) (-1)
           0.60653065971263342 0.36787944117144233); reflexivity.
Defined.

(** C9 as stated fails for finite arguments on which [math.exp] overflows,
    or on which both exponentials underflow to zero: [addshp] raises. *)
Lemma addshp_overflow :
  Ref.addshp 710 0 = Exn OverflowError
  /\ Ref.addshp (-800) (-800) = Exn ZeroDivisionError
  /\ ~ (exists Fi gi, Ref.addshp 710 0 = Ret (Fi, gi)).
Proof.
  assert (H : Ref.addshp 710 0 = Exn OverflowError) by reflexivity.
  split; [ exact H | ]. split; [ reflexivity | ].
  intros (Fi & gi & H'). rewrite H in H'. discriminate.
Qed.

(** ** The axis facets *)

(** What [invapx(0.25)] returns. *)
Definition quarter_F : list row :=
  [(0, 1); (0.45284913999999998, 0.54715086000000002); (1, 0)].
Definition quarter_g : list float := [0; 0.68869416000000006; 0].

Lemma invapx_axis_facets_witness :
  Ref.invapx 0.25 = Ret (quarter_F, quarter_g)
  /\ hd_error quarter_F = Some (0, 1)
  /\ hd_error quarter_g = Some 0
  /\ last quarter_F (0, 0) = (1, 0)
  /\ last quarter_g 1 = 0
  /\ (3 <= length quarter_F)%nat
  /\ length quarter_g = length quarter_F.
Proof.
  assert (H : Ref.invapx 0.25 = Ret (quarter_F, quarter_g))
    by (vm_compute; reflexivity).
  split; [ exact H | ].
  apply (invapx_axis_facets RefLibm.ref_exp RefLibm.ref_log Ref.fuel).
  left. exists 0.25. exact H.
Defined.

(** ** The sweep over [r = 2 .. 21] *)

(** The facet counts and the error of [lowerapprox(r)]. *)
Definition summary (r : Z) : option (nat * nat * float) :=
  match Ref.lowerapprox r with
  | Ret (A, b, err) => Some (length A, length b, err)
  | _ => None
  end.

(** Along a sweep, every call returns and no error is above the one
    before it. *)
Fixpoint errors_drop (l : list (option (nat * nat * float))) : bool :=
  match l with
  | Some (_, _, e) :: t =>
      match t with
      | Some (_, _, e') :: _ => (e' <=? e) && errors_drop t
      | None :: _ => false
      | [] => true
      end
  | None :: _ => false
  | [] => true
  end.

(** Along a sweep, every call returns as many rows and offsets as were
    asked for. *)
Definition rows_match (rs : list Z) (l : list (option (nat * nat * float)))
  : bool :=
  forallb (fun p =>
             match snd p with
             | Some (n, k, _) =>
                 (Z.of_nat n =? fst p)%Z && (Z.of_nat k =? fst p)%Z
             | None => false
             end)
          (combine rs l).

Definition swept : list Z := map Z.of_nat (seq 2 20).

Lemma sweep_checked :
  errors_drop (map summary swept) = true
  /\ rows_match swept (map summary swept) = true.
Proof. vm_compute. split; reflexivity. Qed.

Lemma errors_drop_cons (f : Z -> option (nat * nat * float)) (a b : Z)
      (l : list Z) :
  errors_drop (map f (a :: b :: l)) = true ->
  (exists n k e n' k' e',
      f a = Some (n, k, e) /\ f b = Some (n', k', e') /\ (e' <=? e) = true)
  /\ errors_drop (map f (b :: l)) = true.
Proof.
  cbn [map errors_drop].
  destruct (f a) as [[[n k] e]|]; try discriminate.
  destruct (f b) as [[[n' k'] e']|]; try discriminate.
  intros H. apply andb_prop in H. destruct H as [He Ht].
  split; [ | exact Ht ]. exists n, k, e, n', k', e'. auto.
Qed.

Lemma summary_returns (r : Z) (n k : nat) (e : float) :
  summary r = Some (n, k, e) ->
  exists A b, Ref.lowerapprox r = Ret (A, b, e).
Proof.
  unfold summary. destruct (Ref.lowerapprox r) as [[[A b] err]| |];
    try discriminate.
  intros H. inversion H; subst. eauto.
Qed.

(** C8: for every [r] from [2] to [20], [lowerapprox(r)] and
    [lowerapprox(r + 1)] both return, and the error of the second is not
    above the error of the first. *)
Theorem error_monotone (r : Z) :
  (2 <= r <= 20)%Z ->
  exists A b e A' b' e',
    Ref.lowerapprox r = Ret (A, b, e)
    /\ Ref.lowerapprox (r + 1) = Ret (A', b', e')
    /\ (e' <=? e) = true.
Proof.
  intros Hr.
  assert (Hpair : exists n k e n' k' e',
             summary r = Some (n, k, e)
             /\ summary (r + 1) = Some (n', k', e') /\ (e' <=? e) = true).
  { destruct sweep_checked as [Hs _].
    change (map summary swept)
      with (map summary [2; 3; 4; 5; 6; 7; 8; 9; 10; 11; 12; 13; 14; 15; 16;
                         17; 18; 19; 20; 21]%Z) in Hs.
    assert (Hcases : (r = 2 \/ r = 3 \/ r = 4 \/ r = 5 \/ r = 6 \/ r = 7
                      \/ r = 8 \/ r = 9 \/ r = 10 \/ r = 11 \/ r = 12
                      \/ r = 13 \/ r = 14 \/ r = 15 \/ r = 16 \/ r = 17
                      \/ r = 18 \/ r = 19 \/ r = 20)%Z) by lia.
    repeat (apply errors_drop_cons in Hs; destruct Hs as [Hhere Hs];
            destruct Hcases as [->|Hcases]; [ exact Hhere | clear Hhere ]).
    apply errors_drop_cons in Hs. destruct Hs as [Hhere _].
    subst r. exact Hhere. }
  destruct Hpair as (n & k & e & n' & k' & e' & H1 & H2 & Hle).
  apply summary_returns in H1. destruct H1 as (A & b & H1).
  apply summary_returns in H2. destruct H2 as (A' & b' & H2).
  exists A, b, e, A', b', e'. auto.
Qed.

Lemma error_monotone_witness :
  (2 <= 2 <= 20)%Z
  /\ exists A b e A' b' e',
      Ref.lowerapprox 2 = Ret (A, b, e)
      /\ Ref.lowerapprox (2 + 1) = Ret (A', b', e')
      /\ (e' <=? e) = true.
Proof.
  split; [ lia | ]. apply (error_monotone 2). lia.
Defined.

Lemma rows_match_in (f : Z -> option (nat * nat * float)) (rs : list Z)
      (r : Z) :
  rows_match rs (map f rs) = true ->
  In r rs ->
  exists n k e, f r = Some (n, k, e) /\ Z.of_nat n = r /\ Z.of_nat k = r.
Proof.
  unfold rows_match. induction rs as [|a l IH]; cbn [map combine forallb In];
    [ tauto | ].
  intros H Hin. apply andb_prop in H. destruct H as [Ha Hl].
  destruct Hin as [->|Hin]; [ | auto ].
  cbn [fst snd] in Ha. destruct (f r) as [[[n k] e]|]; try discriminate.
  apply andb_prop in Ha. destruct Ha as [Hn Hk].
  apply Z.eqb_eq in Hn, Hk. eauto 6.
Qed.

(** On the sweep, [lowerapprox(r)] returns exactly [r] rows and [r]
    offsets. *)
Lemma sweep_rows (r : Z) (A : list row) (b : list float) (err : float) :
  In r swept ->
  Ref.lowerapprox r = Ret (A, b, err) ->
  Z.of_nat (length A) = r /\ Z.of_nat (length b) = r.
Proof.
  intros Hin H. destruct sweep_checked as [_ Hs].
  destruct (rows_match_in summary swept r Hs Hin)
    as (n & k & e & Hsum & Hn & Hk).
  unfold summary in Hsum. rewrite H in Hsum.
  inversion Hsum; subst n k e. auto.
Qed.

(** * Further properties of the engine *)

(** ** When [invapx] leaves [midx] unbound *)

(** A computation [avoids] an exception when it does not end in it. *)
Definition avoids {A : Type} (e : pyexn) (m : res A) : Prop := m <> Exn e.

Lemma avoids_bind {A B : Type} (e : pyexn) (m : res A) (k : A -> res B) :
  avoids e m -> (forall a, m = Ret a -> avoids e (k a)) ->
  avoids e (bind m k).
Proof.
  unfold avoids. intros Hm Hk. destruct m as [a|e'|]; simpl.
  - apply Hk. reflexivity.
  - intros H. apply Hm. inversion H. reflexivity.
  - discriminate.
Qed.

Lemma avoids_while {S : Type} (e : pyexn) (P : S -> Prop) (cond : S -> bool)
      (body : S -> res S) :
  (forall s, P s -> avoids e (body s)) ->
  (forall s s', P s -> body s = Ret s' -> P s') ->
  forall fuel s, P s -> avoids e (while fuel cond body s).
Proof.
  intros Ha Hp. induction fuel as [|n IH]; intros s HP; simpl;
    destruct (cond s); try discriminate.
  apply avoids_bind; eauto.
Qed.

Lemma avoids_loop {S R : Type} (e : pyexn) (P : S -> Prop)
      (body : S -> res (S + R)) :
  (forall s, P s -> avoids e (body s)) ->
  (forall s s', P s -> body s = Ret (inl s') -> P s') ->
  forall fuel s, P s -> avoids e (loop fuel body s).
Proof.
  intros Ha Hp. induction fuel as [|n IH]; intros s HP; simpl;
    try discriminate.
  apply avoids_bind; [ auto | ].
  intros [s'|r] Hb; [ eauto | discriminate ].
Qed.

(** A [while] loop that returns from a state in which its condition holds
    has run its body at least once. *)
Lemma while_first {S : Type} (fuel : nat) (cond : S -> bool)
      (body : S -> res S) (s r : S) :
  cond s = true ->
  while fuel cond body s = Ret r ->
  exists k s1,
    fuel = Datatypes.S k /\ body s = Ret s1 /\ while k cond body s1 = Ret r.
Proof.
  intros Hc H. destruct fuel as [|k]; simpl in H; rewrite Hc in H;
    [ discriminate | ].
  apply bind_ret in H. destruct H as (s1 & Hs & H). eauto.
Qed.

Lemma while_skip {S : Type} (fuel : nat) (cond : S -> bool)
      (body : S -> res S) (s : S) :
  cond s = false -> while fuel cond body s = Ret s.
Proof. intros Hc. destruct fuel; simpl; rewrite Hc; reflexivity. Qed.

Lemma loop_raises {S R : Type} (fuel : nat) (body : S -> res (S + R))
      (s : S) (e : pyexn) :
  (1 <= fuel)%nat -> body s = Exn e -> loop fuel body s = Exn e.
Proof.
  intros Hf Hb. destruct fuel as [|k]; [ lia | ]. simpl. rewrite Hb.
  reflexivity.
Qed.

Lemma avoids_loop_from {S R : Type} (e : pyexn) (P : S -> Prop)
      (body : S -> res (S + R)) (s : S) :
  avoids e (body s) ->
  (forall s1, body s = Ret (inl s1) -> P s1) ->
  (forall s, P s -> avoids e (body s)) ->
  (forall s s', P s -> body s = Ret (inl s') -> P s') ->
  forall fuel, avoids e (loop fuel body s).
Proof.
  intros Ha Hs Hall Hp fuel. destruct fuel as [|k]; simpl;
    [ discriminate | ].
  apply avoids_bind; [ exact Ha | ].
  intros [s1|r] Hb; [ | discriminate ].
  apply (avoids_loop e P); auto.
Qed.

Definition bound (o : option tangent) : Prop := o <> None.

Section Unbound.

Variable m_exp : float -> res float.
Variable m_log : float -> res float.
Variable fuel : nat.
Hypothesis exp_bound : forall x, avoids UnboundLocalError (m_exp x).
Hypothesis log_bound : forall x, avoids UnboundLocalError (m_log x).

Lemma addshp_bound x y : avoids UnboundLocalError (addshp m_exp x y).
Proof.
  unfold addshp. apply avoids_bind; [ auto | intros ex _ ].
  apply avoids_bind; [ auto | intros ey _ ].
  apply avoids_bind; [ | discriminate ].
  unfold py_div. destruct (ex + ey =? 0); discriminate.
Qed.

Lemma sign_body_bound vx vy s :
  avoids UnboundLocalError (sign_body m_exp m_log vx vy s).
Proof.
  unfold sign_body. destruct s as [[ll uu] last].
  apply avoids_bind; [ auto | intros e _ ].
  apply avoids_bind; [ auto | intros midy _ ].
  apply avoids_bind; [ apply addshp_bound | ].
  intros [Fi gi] _. discriminate.
Qed.

(** The body of the first search binds [midx], [midy], [Fi] and [gi]. *)
Lemma sign_body_binds vx vy s s' :
  sign_body m_exp m_log vx vy s = Ret s' -> bound (snd s').
Proof.
  unfold sign_body. destruct s as [[ll uu] last]. intros H.
  apply bind_ret in H. destruct H as (e & _ & H).
  apply bind_ret in H. destruct H as (midy & _ & H).
  apply bind_ret in H. destruct H as ([Fi gi] & _ & H).
  inversion H; subst. discriminate.
Qed.

(** After the first search the variables are bound if they were before,
    or if the search had a bracket wider than its tolerance to start on. *)
Lemma bisect_sign_binds vx vy ll uu last s' :
  bound last \/ width_above tol_invapx (ll, uu) = true ->
  bisect_sign m_exp m_log fuel vx vy ll uu last = Ret s' ->
  bound (snd s').
Proof.
  unfold bisect_sign. intros [Hb|Hw] H.
  - apply (while_inv (fun s => bound (snd s))) in H; [ tauto | | exact Hb ].
    intros s s1 _ _ Hs. apply (sign_body_binds _ _ _ _ Hs).
  - apply while_first in H; [ | exact Hw ].
    destruct H as (k & s1 & _ & Hs & H).
    apply (while_inv (fun s => bound (snd s))) in H; [ tauto | | ].
    + intros s s2 _ _ Hs2. apply (sign_body_binds _ _ _ _ Hs2).
    + apply (sign_body_binds _ _ _ _ Hs).
Qed.

Lemma bisect_sign_bound vx vy ll uu last :
  avoids UnboundLocalError (bisect_sign m_exp m_log fuel vx vy ll uu last).
Proof.
  unfold bisect_sign.
  apply (avoids_while _ (fun _ => True)); auto.
  intros s _. apply sign_body_bound.
Qed.

Lemma thr_body_bound epsilon Fi gi s :
  avoids UnboundLocalError (thr_body m_exp m_log epsilon Fi gi s).
Proof.
  unfold thr_body. destruct s as [ll uu].
  apply avoids_bind; [ auto | intros midexp _ ].
  apply avoids_bind.
  - unfold exp_or_inf. pose proof (exp_bound (line_y Fi gi ((ll + uu) / 2))).
    destruct (m_exp (line_y Fi gi ((ll + uu) / 2))) as [a|[]|];
      auto; discriminate.
  - intros z _. apply avoids_bind; [ auto | discriminate ].
Qed.

(** A round of [invapx] that starts with the variables bound, or with a
    bracket wider than the tolerance, does not raise [UnboundLocalError],
    and leaves the variables bound. *)
Lemma invapx_round_bound epsilon lx M st :
  bound (f_last st)
  \/ width_above tol_invapx (- M, fst (head_vertex (f_vert st))) = true ->
  avoids UnboundLocalError (invapx_round m_exp m_log fuel epsilon lx M st)
  /\ forall st',
      invapx_round m_exp m_log fuel epsilon lx M st = Ret (inl st') ->
      bound (f_last st').
Proof.
  unfold invapx_round. destruct (head_vertex (f_vert st)) as [vx vy].
  cbn [fst]. intros Hstart. split.
  - apply avoids_bind; [ apply bisect_sign_bound | ].
    intros [[ll uu] last] Hs.
    apply (bisect_sign_binds _ _ _ _ _ _ Hstart) in Hs. cbn [snd] in Hs.
    destruct last as [t|]; [ | exfalso; apply Hs; reflexivity ].
    apply avoids_bind.
    + unfold bisect_thr. apply (avoids_while _ (fun _ => True)); auto.
      intros s _. apply thr_body_bound.
    + intros [ll2 uu2] _. destruct (lx <? ll2); discriminate.
  - intros st' H.
    apply bind_ret in H. destruct H as ([[ll uu] last] & _ & H).
    destruct last as [t|]; [ | discriminate ].
    apply bind_ret in H. destruct H as ([ll2 uu2] & _ & H).
    destruct (lx <? ll2); inversion H; subst. cbn [f_last]. discriminate.
Qed.

(** X2: [invapx(epsilon)] fails with [UnboundLocalError], on the unbound
    [midx], exactly when its very first bracket, from [-M] to [0] with
    [M = abs(1e2 * log(exp(epsilon) - 1))], is not wider than the
    tolerance [1e-12]: then the first search does not run its body once. *)
Theorem invapx_unbound_iff (epsilon e lx : float) :
  m_exp epsilon = Ret e ->
  m_log (e - 1) = Ret lx ->
  (1 <= fuel)%nat ->
  invapx m_exp m_log fuel epsilon = Exn UnboundLocalError
  <-> width_above tol_invapx (- abs (1e2 * lx), 0) = false.
Proof.
  intros He Hl Hfuel. unfold invapx. rewrite He. cbn [bind].
  rewrite Hl. cbn [bind].
  set (M := abs (1e2 * lx)).
  set (st0 := Facets [(1, 0)] [0] [(0, neg_infinity)] [(0, lx)] None).
  destruct (width_above tol_invapx (- M, 0)) eqn:Hw; split; intros H;
    try discriminate H; try reflexivity.
  - exfalso. revert H. apply avoids_bind; [ | discriminate ].
    destruct (invapx_round_bound epsilon lx M st0) as [Hav Hnext];
      [ right; exact Hw | ].
    apply (avoids_loop_from _ (fun st => bound (f_last st))).
    + exact Hav.
    + exact Hnext.
    + intros s Hs. apply invapx_round_bound. left. exact Hs.
    + intros s s' Hs Hb.
      destruct (invapx_round_bound epsilon lx M s) as [_ Hn];
        [ left; exact Hs | ]. apply Hn, Hb.
  - rewrite (loop_raises _ _ _ UnboundLocalError); [ reflexivity | exact Hfuel | ].
    unfold invapx_round, bisect_sign. subst st0.
    cbn [f_vert head_vertex f_last].
    rewrite while_skip; [ reflexivity | exact Hw ].
Qed.

End Unbound.

Lemma ref_exp_bound x : avoids UnboundLocalError (RefLibm.ref_exp x).
Proof.
  unfold RefLibm.ref_exp, avoids.
  repeat match goal with |- (if ?c then _ else _) <> _ => destruct c end;
    discriminate.
Qed.

Lemma ref_log_bound x : avoids UnboundLocalError (RefLibm.ref_log x).
Proof.
  unfold RefLibm.ref_log, avoids.
  repeat match goal with |- (if ?c then _ else _) <> _ => destruct c end;
    discriminate.
Qed.

Lemma invapx_unbound_iff_witness :
  RefLibm.ref_exp 0.69314718055994529 = Ret 2
  /\ RefLibm.ref_log (2 - 1) = Ret 0
  /\ (1 <= Ref.fuel)%nat
  /\ width_above tol_invapx (- abs (1e2 * 0), 0) = false
  /\ (Ref.invapx 0.69314718055994529 = Exn UnboundLocalError
      <-> width_above tol_invapx (- abs (1e2 * 0), 0) = false).
Proof.
  split; [ reflexivity | ]. split; [ reflexivity | ].
  split; [ unfold Ref.fuel; lia | ]. split; [ reflexivity | ].
  apply (invapx_unbound_iff RefLibm.ref_exp RefLibm.ref_log Ref.fuel
           ref_exp_bound ref_log_bound 0.69314718055994529 2 0).
  - reflexivity.
  - reflexivity.
  - unfold Ref.fuel. lia.
Defined.

(** ** Tangents *)

(** X3: [addshp] treats its two arguments alike: swapping them swaps the
    two components of the normal and leaves the offset unchanged, exactly
    in binary64. *)
Theorem addshp_swap (m_exp : float -> res float) (x y a b g : float) :
  addshp m_exp x y = Ret ((a, b), g) ->
  addshp m_exp y x = Ret ((b, a), g).
Proof.
  unfold addshp, py_div. intros H.
  apply bind_ret in H. destruct H as (ex & Hx & H).
  apply bind_ret in H. destruct H as (ey & Hy & H).
  rewrite Hy, Hx. cbn [bind]. rewrite (F64.add_comm ey ex).
  destruct (ex + ey =? 0); [ discriminate | ]. cbn [bind] in *.
  inversion H; subst. unfold dot. cbn [fst snd].
  rewrite (F64.add_comm (-1 * (1 / (ex + ey) * ey) * y)). reflexivity.
Qed.

Lemma addshp_swap_witness :
  Ref.addshp (-0.5) (-1)
  = Ret ((0.62245933120185448, 0.37754066879814541), 0.68877033439907265)
  /\ Ref.addshp (-1) (-0.5)
     = Ret ((0.37754066879814541, 0.62245933120185448), 0.68877033439907265).
Proof.
  assert (H : Ref.addshp (-0.5) (-1)
              = Ret ((0.62245933120185448, 0.37754066879814541),
                     0.68877033439907265)) by reflexivity.
  split; [ exact H | ].
  exact (addshp_swap RefLibm.ref_exp (-0.5) (-1) _ _ _ H).
Defined.

Section Tangents.

Variable m_exp : float -> res float.
Variable m_log : float -> res float.
Variable fuel : nat.

(** A tangent built by [addshp] at a point [(midx, log(1 - exp(midx)))] of
    the curve [exp(x) + exp(y) = 1]. *)
Definition on_curve (t : tangent) : Prop :=
  exists e,
    m_exp (t_midx t) = Ret e
    /\ m_log (1 - e) = Ret (t_midy t)
    /\ addshp m_exp (t_midx t) (t_midy t) = Ret (t_Fi t, t_gi t).

Definition last_on_curve (o : option tangent) : Prop :=
  match o with
  | Some t => on_curve t
  | None => True
  end.

Lemma sign_body_on_curve vx vy s s' :
  sign_body m_exp m_log vx vy s = Ret s' -> last_on_curve (snd s').
Proof.
  unfold sign_body. destruct s as [[ll uu] last]. intros H.
  apply bind_ret in H. destruct H as (e & He & H).
  apply bind_ret in H. destruct H as (midy & Hy & H).
  apply bind_ret in H. destruct H as ([Fi gi] & Ha & H).
  inversion H; subst. cbn [snd last_on_curve]. exists e. auto.
Qed.

Lemma bisect_sign_on_curve vx vy ll uu last s' :
  last_on_curve last ->
  bisect_sign m_exp m_log fuel vx vy ll uu last = Ret s' ->
  last_on_curve (snd s').
Proof.
  unfold bisect_sign. intros Hl H.
  apply (while_inv (fun s => last_on_curve (snd s))) in H;
    [ tauto | | exact Hl ].
  intros s s1 _ _ Hs. apply (sign_body_on_curve _ _ _ _ Hs).
Qed.

(** The facets while [invapx] runs: tangents on the curve, newest first,
    then [[1, 0]]. *)
Definition tangents_so_far (st : facets) (ts : list tangent) : Prop :=
  Forall on_curve ts
  /\ f_F st = map t_Fi ts ++ [(1, 0)]
  /\ f_g st = map t_gi ts ++ [0]
  /\ last_on_curve (f_last st).

Lemma invapx_round_tangent epsilon lx M st ts o :
  tangents_so_far st ts ->
  invapx_round m_exp m_log fuel epsilon lx M st = Ret o ->
  exists t,
    match o with
    | inl st' => tangents_so_far st' (t :: ts)
    | inr st' =>
        Forall on_curve (t :: ts)
        /\ f_F st' = (0, 1) :: map t_Fi (t :: ts) ++ [(1, 0)]
        /\ f_g st' = 0 :: map t_gi (t :: ts) ++ [0]
    end.
Proof.
  intros (Hts & HF & Hg & Hl). unfold invapx_round.
  destruct (head_vertex (f_vert st)) as [vx vy]. intros H.
  apply bind_ret in H. destruct H as ([[ll uu] last] & Hs & H).
  apply (bisect_sign_on_curve _ _ _ _ _ _ Hl) in Hs. cbn [snd] in Hs.
  destruct last as [t|]; [ | discriminate ]. exists t.
  apply bind_ret in H. destruct H as ([ll2 uu2] & _ & H).
  destruct (lx <? ll2); inversion H; subst;
    unfold tangents_so_far; cbn [f_F f_g f_last map]; rewrite HF, Hg;
    repeat split; auto.
Qed.

(** X4: every polytope [invapx] returns consists of the facet [[0, 1]],
    then at least one tangent facet, then the facet [[1, 0]]; and every
    tangent facet is, rounded to 8 decimals, the normal and offset that
    [addshp] returns at a point [(midx, math.log(1 - math.exp(midx)))] of
    the curve [exp(x) + exp(y) = 1]. *)
Theorem invapx_tangent_facets (epsilon : float) (F : list row)
        (g : list float) :
  invapx m_exp m_log fuel epsilon = Ret (F, g) ->
  exists ts,
    ts <> []
    /\ Forall on_curve ts
    /\ F = (0, 1)
           :: map (fun t => (np_round8 (fst (t_Fi t)),
                             np_round8 (snd (t_Fi t)))) ts
           ++ [(1, 0)]
    /\ g = 0 :: map (fun t => np_round8 (t_gi t)) ts ++ [0].
Proof.
  unfold invapx. intros H.
  apply bind_ret in H. destruct H as (e & _ & H).
  apply bind_ret in H. destruct H as (vy0 & _ & H).
  apply bind_ret in H. destruct H as (e' & _ & H).
  apply bind_ret in H. destruct H as (lx & _ & H).
  apply bind_ret in H. destruct H as (st & Hloop & H).
  apply (loop_inv (fun s => exists ts, tangents_so_far s ts)
                  (fun r => exists ts,
                       ts <> [] /\ Forall on_curve ts
                       /\ f_F r = (0, 1) :: map t_Fi ts ++ [(1, 0)]
                       /\ f_g r = 0 :: map t_gi ts ++ [0])) in Hloop.
  - destruct Hloop as (ts & Hne & Hts & HF & Hg).
    exists ts. inversion H; subst F g. rewrite HF, Hg.
    cbn [map fst snd]. rewrite !map_app, !map_map. cbn [map fst snd].
    rewrite np_round8_0, np_round8_1. auto.
  - intros s s' (ts & Hs) Hr.
    destruct (invapx_round_tangent _ _ _ _ _ _ Hs Hr) as (t & Ht). eauto.
  - intros s r (ts & Hs) Hr.
    destruct (invapx_round_tangent _ _ _ _ _ _ Hs Hr) as (t & Ht & HF & Hg).
    exists (t :: ts). repeat split; auto. discriminate.
  - exists []. unfold tangents_so_far. cbn. auto.
Qed.

End Tangents.

Lemma invapx_tangent_facets_witness :
  Ref.invapx 0.25 = Ret (quarter_F, quarter_g)
  /\ exists ts,
      ts <> []
      /\ Forall (on_curve RefLibm.ref_exp RefLibm.ref_log) ts
      /\ quarter_F
         = (0, 1) :: map (fun t => (np_round8 (fst (t_Fi t)),
                                    np_round8 (snd (t_Fi t)))) ts
                  ++ [(1, 0)]
      /\ quarter_g = 0 :: map (fun t => np_round8 (t_gi t)) ts ++ [0].
Proof.
  assert (H : Ref.invapx 0.25 = Ret (quarter_F, quarter_g))
    by (vm_compute; reflexivity).
  split; [ exact H | ].
  exact (invapx_tangent_facets RefLibm.ref_exp RefLibm.ref_log Ref.fuel
           0.25 quarter_F quarter_g H).
Defined.

(** ** What [lowerapprox] settles on *)

Section Settled.

Variable m_exp : float -> res float.
Variable m_log : float -> res float.
Variable fuel : nat.

(** The upper end of the search of [lowerapprox]: where it started, or a
    trial error whose polytope had no more than [r] facets. *)
Definition upper_end (r : Z) (uu0 : float) (s : float * float) : Prop :=
  snd s = uu0
  \/ exists A b,
      invapx m_exp m_log fuel (snd s) = Ret (A, b)
      /\ (Z.of_nat (length A) <= r)%Z.

Lemma facet_body_upper_end r uu0 s s' :
  upper_end r uu0 s ->
  facet_body m_exp m_log fuel r s = Ret s' -> upper_end r uu0 s'.
Proof.
  unfold facet_body. destruct s as [ll uu]. intros Hs H.
  apply bind_ret in H. destruct H as ([A b] & Hinv & H).
  destruct (Z.ltb_spec r (Z.of_nat (length A))) as [Hlt|Hge];
    inversion H; subst.
  - exact Hs.
  - right. exists A, b. auto.
Qed.

(** X5: for [r] other than [2], what [lowerapprox(r)] returns is the
    polytope [invapx] builds for the returned error; and it has at most
    [r] facets, unless no trial of the search had so few, in which case
    the returned error is still [math.log(2)]. *)
Theorem lowerapprox_at_most_r (r : Z) (A : list row) (b : list float)
        (err : float) :
  r <> 2%Z ->
  lowerapprox m_exp m_log fuel r = Ret (A, b, err) ->
  invapx m_exp m_log fuel err = Ret (A, b)
  /\ ((Z.of_nat (length A) <= r)%Z \/ m_log 2 = Ret err).
Proof.
  intros Hr H.
  assert (Hinv : invapx m_exp m_log fuel err = Ret (A, b))
    by (apply (lowerapprox_invapx _ _ _ r); assumption).
  split; [ exact Hinv | ].
  unfold lowerapprox in H.
  apply bind_ret in H. destruct H as (uu0 & Hlog & H).
  destruct (Z.eqb_spec r 2) as [|_]; [ contradiction | ].
  apply bind_ret in H. destruct H as ([ll uu] & Hw & H).
  apply (while_inv (upper_end r uu0)) in Hw.
  - destruct Hw as [[Huu|(A' & b' & HA & Hle)] _]; cbn [snd] in *.
    + right. subst uu.
      apply bind_ret in H. destruct H as ([A1 b1] & _ & H).
      inversion H; subst. exact Hlog.
    + left.
      apply bind_ret in H. destruct H as ([A1 b1] & H1 & H).
      inversion H; subst. rewrite HA in Hinv. inversion Hinv; subst.
      exact Hle.
  - intros s s' Hs _ Hb. apply (facet_body_upper_end _ _ _ _ Hs Hb).
  - left. reflexivity.
Qed.

End Settled.

(** What [lowerapprox(3)] returns. *)
Definition three_F : list row := [(0, 1); (0.5, 0.5); (1, 0)].
Definition three_g : list float := [0; 0.69314717999999997; 0].

Lemma lowerapprox_at_most_r_witness :
  3%Z <> 2%Z
  /\ Ref.lowerapprox 3 = Ret (three_F, three_g, 0.22314355131411573)
  /\ Ref.invapx 0.22314355131411573 = Ret (three_F, three_g)
  /\ ((Z.of_nat (length three_F) <= 3)%Z
      \/ RefLibm.ref_log 2 = Ret 0.22314355131411573).
Proof.
  assert (Hr : 3%Z <> 2%Z) by lia.
  assert (H : Ref.lowerapprox 3
              = Ret (three_F, three_g, 0.22314355131411573))
    by (vm_compute; reflexivity).
  split; [ exact Hr | ]. split; [ exact H | ].
  exact (lowerapprox_at_most_r RefLibm.ref_exp RefLibm.ref_log Ref.fuel
           3 _ _ _ Hr H).
Defined.

(** ** A search that cannot end *)





(** * The reporting script [error_table.py] *)

From Stdlib Require String Ascii DecimalString.

Module ErrorTable.

Import String.

(** An entry of the list [values]: the int [-1], or the error, a float. *)
Inductive value : Set :=
| VInt (z : Z)
| VFloat (f : float).

(** How the script ends: it runs to its last line, or an engine call
    raises, or a lookup [values[r]] is out of range, or an engine call is
    still running when its budget is used up. *)
Inductive ending : Set :=
| Completed
| Raised (e : pyexn)
| IndexError
| OutOfBudget.

Record run : Set := Run {
  values : list value;
  stdout : list string;
  table_html : option string;
  ended : ending
}.

Definition nl : string := String.String (Ascii.ascii_of_nat 10) String.EmptyString.
Definition dq : string := String.String (Ascii.ascii_of_nat 34) String.EmptyString.

Definition join (pieces : list string) : string :=
  String.concat String.EmptyString pieces.

(** [str] of an int. *)
Definition str_int (z : Z) : string :=
  DecimalString.NilZero.string_of_int (Z.to_int z).

(** What is written before the rows, and one row. *)
Definition header : string :=
  join ["<table id="%string; dq; "myTable"%string; dq; ">"%string; nl;
        "    <tr>"%string; nl;
        "        <th onclick="%string; dq; "sortTable(0)"%string; dq;
        ">r</th>"%string; nl;
        "        <th onclick="%string; dq; "sortTable(1)"%string; dq;
        ">error</th>"%string; nl;
        "    </tr>"%string; nl].

Definition row_text (r v : string) : string :=
  join ["    <tr>"%string; nl;
        "        <td>"%string; r; "</td>"%string; nl;
        "        <td>"%string; v; "</td>"%string; nl;
        "    </tr>"%string; nl].

Definition footer : string := "</table>"%string.

(** [print(a, b, c)]. *)
Definition print3 (a b c : string) : string :=
  join [a; " "%string; b; " "%string; c; nl].

Section Script.

Variable m_exp : float -> res float.
Variable m_log : float -> res float.
Variable fuel : nat.

(** [str] of a float is the Python runtime's. *)
Variable str_float : float -> string.

Definition str (v : value) : string :=
  match v with
  | VInt z => str_int z
  | VFloat f => str_float f
  end.

(** The first loop, over the [r] still to come, with [values] and what
    was printed so far. *)
Fixpoint collect (rs : list nat) (vals : list value) (out : list string)
  : list value * list string * ending :=
  match rs with
  | [] => (vals, out, Completed)
  | r :: rs' =>
      if (2 <=? r)%nat then
        match lowerapprox m_exp m_log fuel (Z.of_nat r) with
        | Ret (_, _, err) =>
            let vals' := vals ++ [VFloat err] in
            match nth_error vals' r with
            | Some v =>
                collect rs' vals'
                        (out ++ [print3 (str_int (Z.of_nat r))
                                        "   "%string (str v)])
            | None => (vals', out, IndexError)
            end
        | Exn e => (vals, out, Raised e)
        | Timeout => (vals, out, OutOfBudget)
        end
      else collect rs' (vals ++ [VInt (-1)]) out
  end.

(** The second loop, over the [r] still to come, with what was written so
    far; it stops, with [false], at a [values[r]] out of range. *)
Fixpoint write_rows (rs : list nat) (vals : list value) (doc : string)
  : string * bool :=
  match rs with
  | [] => (doc, true)
  | r :: rs' =>
      match nth_error vals r with
      | Some v =>
          write_rows rs' vals
                     (String.append doc
                                    (row_text (str_int (Z.of_nat r)) (str v)))
      | None => (doc, false)
      end
  end.

(** The script with [range(0, n)] for its first loop. *)
Definition sweep_upto (n : nat) : run :=
  let '(vals, out, e) := collect (seq 0 n) [] [] in
  match e with
  | Completed =>
      let '(doc, ok) := write_rows (seq 0 (List.length vals)) vals header in
      if ok then Run vals out (Some (String.append doc footer)) Completed
      else Run vals out (Some doc) IndexError
  | _ => Run vals out None e
  end.

(** [error_table.py]. *)
Definition error_table : run := sweep_upto 101.


(** ** What the script prints and writes *)

(** The text of a file after the given [write] calls. *)
Definition writes (ws : list string) : string :=
  fold_left String.append ws String.EmptyString.

(** The error of [lowerapprox(r)], when it returns. *)
Definition err_of (r : nat) : float :=
  match lowerapprox m_exp m_log fuel (Z.of_nat r) with
  | Ret (_, _, err) => err
  | _ => nan
  end.

(** The entry of [values] for [r]. *)
Definition cell (r : nat) : value :=
  if (2 <=? r)%nat then VFloat (err_of r) else VInt (-1).

Definition line (r : nat) : string :=
  print3 (str_int (Z.of_nat r)) "   "%string (str (cell r)).

Definition row_of (r : nat) : string :=
  row_text (str_int (Z.of_nat r)) (str (cell r)).

Definition all_return (n : nat) : Prop :=
  forall r, (2 <= r < n)%nat ->
            returns (lowerapprox m_exp m_log fuel (Z.of_nat r)) = true.

Lemma returns_err_of (r : nat) :
  returns (lowerapprox m_exp m_log fuel (Z.of_nat r)) = true ->
  exists A b, lowerapprox m_exp m_log fuel (Z.of_nat r) = Ret (A, b, err_of r).
Proof.
  unfold err_of.
  destruct (lowerapprox m_exp m_log fuel (Z.of_nat r)) as [[[A b] e]| |];
    try discriminate. eauto.
Qed.

(** When the first loop reaches [r], [values] has [r] entries: the lookup
    [values[r]] after the [append] finds the entry just appended. *)
Lemma collect_in_range (m k : nat) (vals : list value) (out : list string) :
  List.length vals = k ->
  let '(vals', _, e) := collect (seq k m) vals out in
  e <> IndexError /\ (e = Completed -> List.length vals' = (k + m)%nat).
Proof.
  revert k vals out. induction m as [|m IH]; intros k vals out Hk;
    cbn [seq collect].
  - split; [ discriminate | intros _; lia ].
  - destruct (2 <=? k)%nat.
    + destruct (lowerapprox m_exp m_log fuel (Z.of_nat k))
        as [[[A b] err]|e|]; try (split; discriminate).
      rewrite nth_error_app2 by lia. rewrite Hk, Nat.sub_diag. cbn [nth_error].
      specialize (IH (S k) (vals ++ [VFloat err])
                     (out ++ [print3 (str_int (Z.of_nat k)) "   "%string
                                     (str (VFloat err))])).
      rewrite length_app in IH. cbn [List.length] in IH.
      specialize (IH ltac:(lia)).
      destruct (collect (seq (S k) m) _ _) as [[vals' out'] e].
      destruct IH as [H1 H2]. split; [ exact H1 | intros He; rewrite H2; auto; lia ].
    + specialize (IH (S k) (vals ++ [VInt (-1)]) out).
      rewrite length_app in IH. cbn [List.length] in IH.
      specialize (IH ltac:(lia)).
      destruct (collect (seq (S k) m) _ _) as [[vals' out'] e].
      destruct IH as [H1 H2]. split; [ exact H1 | intros He; rewrite H2; auto; lia ].
Qed.

Lemma write_rows_in_range (rs : list nat) (vals : list value) (doc : string)
      (f : nat -> value) :
  (forall r, In r rs -> nth_error vals r = Some (f r)) ->
  write_rows rs vals doc
  = (fold_left String.append
               (map (fun r => row_text (str_int (Z.of_nat r)) (str (f r))) rs)
               doc,
     true).
Proof.
  revert doc. induction rs as [|r rs IH]; intros doc Hin; cbn [write_rows].
  - reflexivity.
  - rewrite (Hin r) by (left; reflexivity).
    rewrite IH by (intros r' Hr'; apply Hin; right; exact Hr').
    reflexivity.
Qed.

Lemma nth_error_vals (vals : list value) (r : nat) :
  (r < List.length vals)%nat ->
  nth_error vals r = Some (nth r vals (VInt 0)).
Proof. intros H. apply nth_error_nth'. exact H. Qed.

(** X7: no lookup [values[r]] of the script is ever out of range: whatever
    the engine does, the script does not end in an [IndexError]. *)
Theorem sweep_never_index_error (n : nat) :
  ended (sweep_upto n) <> IndexError.
Proof.
  unfold sweep_upto.
  pose proof (collect_in_range n 0 [] [] eq_refl) as H.
  destruct (collect (seq 0 n) [] []) as [[vals out] e].
  destruct H as [Hne Hlen].
  destruct e; cbn [ended]; try discriminate; try (exact Hne).
  rewrite (write_rows_in_range _ _ _ (fun r => nth r vals (VInt 0))).
  - cbn [ended]. discriminate.
  - intros r Hr. apply in_seq in Hr. apply nth_error_vals. lia.
Qed.

(** The first loop when every call it makes returns. *)
Lemma collect_all_return (m k : nat) (vals : list value) (out : list string) :
  List.length vals = k ->
  (forall r, (k <= r < k + m)%nat -> (2 <= r)%nat ->
             returns (lowerapprox m_exp m_log fuel (Z.of_nat r)) = true) ->
  collect (seq k m) vals out
  = (vals ++ map cell (seq k m),
     out ++ map line (filter (Nat.leb 2) (seq k m)),
     Completed).
Proof.
  revert k vals out. induction m as [|m IH]; intros k vals out Hk Hret;
    cbn [seq collect map filter].
  - rewrite !app_nil_r. reflexivity.
  - destruct (2 <=? k)%nat eqn:H2.
    + assert (Hcell : cell k = VFloat (err_of k))
        by (unfold cell; rewrite H2; reflexivity).
      apply Nat.leb_le in H2.
      destruct (returns_err_of k) as (A & b & Hlow);
        [ apply Hret; lia | ].
      rewrite Hlow, <- Hcell. rewrite nth_error_app2 by lia.
      rewrite Hk, Nat.sub_diag. cbn [nth_error].
      rewrite IH.
      * rewrite <- !app_assoc. reflexivity.
      * rewrite length_app. cbn [List.length]. lia.
      * intros r Hr. apply Hret. lia.
    + assert (Hcell : cell k = VInt (-1))
        by (unfold cell; rewrite H2; reflexivity).
      rewrite <- Hcell. rewrite IH.
      * rewrite <- !app_assoc. reflexivity.
      * rewrite length_app. cbn [List.length]. lia.
      * intros r Hr. apply Hret. lia.
Qed.

(** The first loop runs to its end only if every call it makes returns. *)
Lemma collect_completed (m k : nat) (vals : list value) (out : list string) :
  snd (collect (seq k m) vals out) = Completed ->
  forall r, (k <= r < k + m)%nat -> (2 <= r)%nat ->
            returns (lowerapprox m_exp m_log fuel (Z.of_nat r)) = true.
Proof.
  revert k vals out. induction m as [|m IH]; intros k vals out H r Hr H2;
    [ lia | ].
  cbn [seq collect] in H.
  destruct (Nat.eq_dec r k) as [->|Hne].
  - apply Nat.leb_le in H2. rewrite H2 in H.
    destruct (lowerapprox m_exp m_log fuel (Z.of_nat k)) as [[[A b] err]|e|];
      [ reflexivity | discriminate H | discriminate H ].
  - destruct (2 <=? k)%nat.
    + destruct (lowerapprox m_exp m_log fuel (Z.of_nat k))
        as [[[A b] err]|e|]; try discriminate H.
      destruct (nth_error (vals ++ [VFloat err]) k); [ | discriminate H ].
      apply (IH _ _ _ H); lia.
    + apply (IH _ _ _ H); lia.
Qed.

(** X8: the script writes [table.html] exactly when every engine call of
    the sweep, for [r] from [2] on, returns: if one of them raises,
    nothing is written. *)
Theorem table_written_iff (n : nat) :
  table_html (sweep_upto n) <> None <-> all_return n.
Proof.
  unfold sweep_upto, all_return. split.
  - intros H r Hr.
    destruct (collect (seq 0 n) [] []) as [[vals out] e] eqn:Hc.
    destruct e; cbn [table_html] in H; try (exfalso; apply H; reflexivity).
    apply (collect_completed n 0 [] []); [ rewrite Hc; reflexivity | lia | lia ].
  - intros Hret.
    rewrite collect_all_return; [ | reflexivity | intros r Hr H2; apply Hret; lia ].
    destruct (write_rows _ _ header) as [doc ok].
    destruct ok; cbn [table_html]; discriminate.
Qed.

(** X9: when every engine call of the sweep returns, the script keeps one
    entry per [r]: the int [-1] for [r < 2], for which the engine is not
    called, and the error of [lowerapprox(r)] from [2] on.  It prints one
    line for each [r >= 2], and writes the header, one table row per [r]
    holding [str(r)] and [str] of the entry, in order, and the footer. *)
Theorem sweep_table (n : nat) :
  all_return n ->
  sweep_upto n
  = Run (map cell (seq 0 n))
        (map line (filter (Nat.leb 2) (seq 0 n)))
        (Some (writes (header :: map row_of (seq 0 n) ++ [footer])))
        Completed.
Proof.
  intros Hret. unfold sweep_upto.
  rewrite collect_all_return; [ | reflexivity | intros r Hr H2; apply Hret; lia ].
  cbn [app]. rewrite length_map, length_seq.
  rewrite (write_rows_in_range _ _ _ cell).
  - unfold writes. cbn [fold_left String.append].
    rewrite fold_left_app. reflexivity.
  - intros r Hr. apply in_seq in Hr.
    rewrite nth_error_map, nth_error_seq.
    destruct (Nat.ltb_spec r n) as [_|Hge]; [ reflexivity | lia ].
Qed.

End Script.

(** The script with [range(0, 5)] on the reference C library; floats are
    shown by a stand-in for the runtime's [str]. *)
Definition str_float_demo (f : float) : string := "<float>"%string.

Lemma ref_all_return_5 :
  all_return RefLibm.ref_exp RefLibm.ref_log Ref.fuel 5.
Proof.
  intros r Hr.
  assert (Hc : r = 2%nat \/ r = 3%nat \/ r = 4%nat) by lia.
  destruct Hc as [->|[->| ->]]; vm_compute; reflexivity.
Qed.

Lemma sweep_table_witness :
  all_return RefLibm.ref_exp RefLibm.ref_log Ref.fuel 5
  /\ sweep_upto RefLibm.ref_exp RefLibm.ref_log Ref.fuel str_float_demo 5
     = Run (map (cell RefLibm.ref_exp RefLibm.ref_log Ref.fuel) (seq 0 5))
           (map (line RefLibm.ref_exp RefLibm.ref_log Ref.fuel str_float_demo)
                (filter (Nat.leb 2) (seq 0 5)))
           (Some (writes
                    (header
                       :: map (row_of RefLibm.ref_exp RefLibm.ref_log Ref.fuel
                                      str_float_demo) (seq 0 5)
                       ++ [footer])))
           Completed.
Proof.
  split; [ exact ref_all_return_5 | ].
  exact (sweep_table RefLibm.ref_exp RefLibm.ref_log Ref.fuel str_float_demo
           5 ref_all_return_5).
Defined.

(** The entries and the printed lines of that run. *)
Lemma sweep_upto_5 :
  values (sweep_upto RefLibm.ref_exp RefLibm.ref_log Ref.fuel
                     str_float_demo 5)
  = [VInt (-1); VInt (-1); VFloat 0.69314718055994529;
     VFloat 0.22314355131411573; VFloat 0.10936059516853525]
  /\ stdout (sweep_upto RefLibm.ref_exp RefLibm.ref_log Ref.fuel
                        str_float_demo 5)
     = [join ["2     <float>"%string; nl]; join ["3     <float>"%string; nl];
        join ["4     <float>"%string; nl]].
Proof. split; vm_compute; reflexivity. Qed.

End ErrorTable.

(** * The returned polytopes against log-sum-exp, on a sample *)

Module Sample.

(** [math.log(math.exp(x) + math.exp(y))], the function the polytopes
    approximate, on the reference C library. *)
Definition lse (x y : float) : res float :=
  ex <- RefLibm.ref_exp x ;;
  ey <- RefLibm.ref_exp y ;;
  RefLibm.ref_log (ex + ey).

Definition fmax (a b : float) : float := if a <? b then b else a.

(** [max(A . (x, y) + b)], the largest facet at [(x, y)]. *)
Fixpoint poly_max (A : list row) (b : list float) (x y : float) : float :=
  match A, b with
  | Ai :: A', bi :: b' => fmax (dot Ai (x, y) + bi) (poly_max A' b' x y)
  | _, _ => neg_infinity
  end.

Fixpoint axis_from (x step : float) (n : nat) : list float :=
  match n with
  | O => []
  | S k => x :: axis_from (x + step) step k
  end.

(** The coordinates of the sample: from [-700] to [700] in steps of
    [100], from [-50] to [50] in steps of [4], and from [-5] to [5] in
    steps of [0.5]. *)
Definition sample_axis : list float :=
  axis_from (-700) 100 15 ++ axis_from (-50) 4 26 ++ axis_from (-5) 0.5 21.

Definition slack : float := 1e-6.

(** The two-sided bound at one point. *)
Definition point_ok (A : list row) (b : list float) (err x y : float)
  : bool :=
  match lse x y with
  | Ret l =>
      (poly_max A b x y <=? l + slack)
      && (l <=? poly_max A b x y + 2 * err + slack)
  | _ => false
  end.

(** A number that is its own rounding to 8 decimals. *)
Definition fixed8 (c : float) : bool := np_round8 c =? c.

Definition sample_ok (r : Z) : bool :=
  match Ref.lowerapprox r with
  | Ret (A, b, err) =>
      forallb (fun x => forallb (point_ok A b err x) sample_axis) sample_axis
      && forallb (fun a => fixed8 (fst a) && fixed8 (snd a)) A
      && forallb fixed8 b
  | _ => false
  end.

Lemma sample_checked : forallb sample_ok swept = true.
Proof. vm_compute. reflexivity. Qed.

Lemma sample_ok_returns (r : Z) :
  In r swept ->
  exists A b err,
    Ref.lowerapprox r = Ret (A, b, err)
    /\ forallb (fun x => forallb (point_ok A b err x) sample_axis)
               sample_axis = true
    /\ forallb (fun a => fixed8 (fst a) && fixed8 (snd a)) A = true
    /\ forallb fixed8 b = true.
Proof.
  intros Hr. pose proof sample_checked as H.
  rewrite forallb_forall in H. specialize (H r Hr).
  unfold sample_ok in H.
  destruct (Ref.lowerapprox r) as [[[A b] err]| |]; try discriminate.
  apply andb_prop in H. destruct H as [H Hb].
  apply andb_prop in H. destruct H as [Hp HA].
  exists A, b, err. auto.
Qed.




(** On the sweep, every entry of [A] and [b] that [lowerapprox(r)] returns
    is its own rounding to 8 decimals. *)
Lemma sweep_coefficients_fixed (r : Z) (A : list row) (b : list float)
      (err : float) :
  In r swept ->
  Ref.lowerapprox r = Ret (A, b, err) ->
  forallb (fun a => fixed8 (fst a) && fixed8 (snd a)) A = true
  /\ forallb fixed8 b = true.
Proof.
  intros Hr H.
  destruct (sample_ok_returns r Hr) as (A' & b' & err' & Hlow & _ & HA & Hb).
  rewrite H in Hlow. inversion Hlow; subst. auto.
Qed.

End Sample.

Lemma coefficients_rounded_witness :
  (2 <= 3)%Z
  /\ Ref.lowerapprox 3 = Ret (three_F, three_g, 0.22314355131411573)
  /\ Forall row_rounded8 three_F
  /\ Forall rounded8 three_g
  /\ Ref.upperapprox 3
     = Ret (three_F, map (fun bi => 0.22314355131411573 + bi) three_g,
            0.22314355131411573).
Proof.
  assert (H : Ref.lowerapprox 3
              = Ret (three_F, three_g, 0.22314355131411573))
    by (vm_compute; reflexivity).
  split; [ lia | ]. split; [ exact H | ].
  exact (coefficients_rounded RefLibm.ref_exp RefLibm.ref_log Ref.fuel 3
           three_F three_g 0.22314355131411573 ltac:(lia) H).
Defined.
